(** * Live voice client (ServerSideLiveVoiceClient): model and properties

    A shallow embedding of the browser-side live voice client, the class
    [ServerSideLiveVoiceClient].  The class is event driven: its methods
    run to their first [await] and are resumed when the awaited promise
    settles; callbacks registered on the [EventSource], on the
    [MediaRecorder], on a [FileReader] and with [setTimeout] run when
    the browser delivers the event.  The model keeps that shape:

    - [Client] holds the fields of the object;
    - [World] adds what the client shares with the browser: the
      conversation box of the page, the media tracks handed out by
      [getUserMedia], the promises that are still pending, the event
      tasks the browser has queued, the timers, and the trace of
      everything the client did to the outside world;
    - every method is a computation in a small state-and-exception
      monad [M] over [World];
    - [step] runs one method call or one browser event.  *)

From Stdlib Require Import String Ascii List Bool Arith NArith Lia.
Import ListNotations.
Open Scope string_scope.
Open Scope list_scope.

(** ** Values *)

(** A [Blob] is its bytes; [blob.size] is their number. *)
Definition Blob := list Byte.byte.

Definition size (b : Blob) : nat := length b.

(** [new Blob(parts)]: the parts one after the other. *)
Definition newBlob (parts : list Blob) : Blob := concat parts.

(** JavaScript truthiness of a value that is a string, [null] or
    [undefined]: only a non-empty string is truthy. *)
Definition truthy (v : option string) : bool :=
  match v with
  | Some s => negb (s =? "")
  | None => false
  end.

(** A value inside a template literal.  [None] stands for [null] and
    for [undefined] alike and is printed as [null]; the one place
    where the client prints an id that is not truthy is the request of
    [reader.onloadend], and what is stated below of its address is
    stated where the id is truthy or was set to [null] by [end()]. *)
Definition show (v : option string) : string :=
  match v with
  | Some s => s
  | None => "null"
  end.

(** [String.prototype.trim] on the ASCII white space and line
    terminators (tab, line feed, vertical tab, form feed, carriage
    return, space).  The white space outside ASCII that [trim] also
    removes is not covered: what is stated below of a text that
    reaches [trim] is stated of a text of ASCII characters. *)
Definition is_white_space (a : ascii) : bool :=
  match nat_of_ascii a with
  | 9 | 10 | 11 | 12 | 13 | 32 => true
  | _ => false
  end.

Fixpoint trimStart (s : string) : string :=
  match s with
  | EmptyString => EmptyString
  | String a rest => if is_white_space a then trimStart rest else s
  end.

Fixpoint reverse_onto (s acc : string) : string :=
  match s with
  | EmptyString => acc
  | String a rest => reverse_onto rest (String a acc)
  end.

Definition reverse (s : string) : string := reverse_onto s EmptyString.

Definition trimEnd (s : string) : string := reverse (trimStart (reverse s)).

Definition trim (s : string) : string := trimEnd (trimStart s).

Arguments trim : simpl never.

(** ** The browser objects the client holds *)

Inductive RecordingState : Type := inactive | recording | paused.

Definition RecordingState_eqb (a b : RecordingState) : bool :=
  match a, b with
  | inactive, inactive | recording, recording | paused, paused => true
  | _, _ => false
  end.

(** A [MediaRecorder]: its [state], the tracks of its [stream] (indices
    into the tracks of the world) and the audio it has gathered since
    [start()] and not yet delivered through [dataavailable]. *)
Record MediaRecorder : Type := mkRecorder {
  state : RecordingState;
  stream : list nat;
  gathered : Blob
}.

Inductive ReadyState : Type := CONNECTING | OPEN | CLOSED.

Definition ReadyState_eqb (a b : ReadyState) : bool :=
  match a, b with
  | CONNECTING, CONNECTING | OPEN, OPEN | CLOSED, CLOSED => true
  | _, _ => false
  end.

Record EventSource : Type := mkEventSource {
  url : string;
  readyState : ReadyState
}.

(** The fields set by the constructor.  [baseUrl] is never assigned
    again and is the constant below. *)
Record Client : Type := mkClient {
  sessionId : option string;
  eventSource : option EventSource;
  isActive : bool;
  mediaRecorder : option MediaRecorder;
  audioChunks : list Blob
}.

Definition baseUrl : string := "http://localhost:8003/api/live".

Definition constructor : Client :=
  {| sessionId := None;
     eventSource := None;
     isActive := false;
     mediaRecorder := None;
     audioChunks := [] |}.

(** ** What travels between client and server *)

(** The body of a POST.  [JsonAudio b] stands for
    [JSON.stringify({ audio })] with the base64 text of [b]. *)
Inductive Body : Type :=
| NoBody
| JsonText (text : string)
| JsonAudio (b : Blob).

(** The object [response.json()] yields, with the fields the client
    reads; an absent field is [None]. *)
Record ResponseData : Type := mkResponse {
  session_id : option string;
  r_audio : option string;
  r_text : option string
}.

(** The body of a response, as [response.json()] finds it: not JSON, in
    which case [response.json()] rejects with the message the engine
    gives for that body, or the object it parses to. *)
Inductive ReplyBody : Type :=
| NotJson (message : string)
| Json (d : ResponseData).

(** How a [fetch] settles: the promise rejects (network failure) with a
    message, or a response arrives, with whatever status. *)
Inductive FetchOutcome : Type :=
| Rejected (message : string)
| Responded (body : ReplyBody).

(** The answer of the server to a request whose body the client does
    not read: an empty object. *)
Definition acknowledged : ReplyBody := Json (mkResponse None None None).

(** How [getUserMedia] settles: denied, or a stream with that many
    fresh tracks. *)
Inductive MediaOutcome : Type :=
| Denied (message : string)
| Granted (ntracks : nat).

(** A Message as it appears inside a push event. *)
Record Message : Type := mkMessage {
  role : string;
  content : string;
  audio : option string
}.

(** The object [JSON.parse(event.data)] yields for a push event. *)
Record ServerData : Type := mkServerData {
  type : option string;
  data : option Message;
  error : option string
}.

(** ** The world *)

(** An element appended to the conversation box. *)
Record Element : Type := mkElement {
  className : string;
  textContent : string
}.

(** Everything the client does to the outside world, in order.  A
    console line is its text, without the pictograph some lines start
    with and without the error object printed after it. *)
Inductive Effect : Type :=
| Fetch (target : string) (body : Body)
| OpenEventSource (target : string)
| CloseEventSource
| GetUserMedia
| RecorderStart
| RecorderStop
| TrackStop (id : nat)
| ReadAsDataURL (b : Blob)
| PlayAudio (base64Audio : string)
| SetTimeout (ms : N)
| ConsoleLog (text : string)
| ConsoleError (text : string)
| Uncaught (message : string).

(** The code that waits for a [fetch]. *)
Inductive FetchCont : Type :=
| KInitialize
| KSendTextMessage
| KSendAudio
| KEnd.

Inductive Pending : Type :=
| PFetch (k : FetchCont)
| PUserMedia.

(** An event the browser has queued for the client's callbacks. *)
Inductive Task : Type :=
| TDataAvailable (chunk : Blob)
| TRecorderStop
| TLoadEnd (b : Blob).

Record World : Type := mkWorld {
  this : Client;
  conversationBox : option (list Element);
  tracks : list bool;          (* per track: is it live? *)
  opusSupported : bool;        (* can the browser record audio/webm;codecs=opus? *)
  recorderError : string;      (* if not: the message of the error [new MediaRecorder] throws *)
  pending : list Pending;
  tasks : list Task;
  timers : list N;             (* remaining delay of each setTimeout callback *)
  trace : list Effect
}.

(** What a browser says when [new MediaRecorder] refuses the type. *)
Definition unsupported : string :=
  "Failed to construct 'MediaRecorder': Failed to initialize native MediaRecorder the type provided (audio/webm;codecs=opus) is not supported.".

(** Some track among [ids] is live. *)
Definition live_track (t : list bool) (ids : list nat) : bool :=
  existsb (fun id => nth id t false) ids.

(** The audio device is held as long as some track is live. *)
Definition device_held (w : World) : bool := existsb (fun live => live) (tracks w).

(** ** The monad of the methods *)

Inductive Result (A : Type) : Type :=
| Ok (a : A)
| Throw (message : string).

Arguments Ok {A} a.
Arguments Throw {A} message.

Definition M (A : Type) : Type := World -> Result A * World.

Definition ret {A : Type} (a : A) : M A := fun w => (Ok a, w).

Definition bind {A B : Type} (m : M A) (k : A -> M B) : M B :=
  fun w =>
    match m w with
    | (Ok a, w') => k a w'
    | (Throw e, w') => (Throw e, w')
    end.

Definition throw {A : Type} (e : string) : M A := fun w => (Throw e, w).

(** [try { body } catch (error) { handler(error.message) }] *)
Definition try_catch {A : Type} (body : M A) (handler : string -> M A) : M A :=
  fun w =>
    match body w with
    | (Ok a, w') => (Ok a, w')
    | (Throw e, w') => handler e w'
    end.

Declare Scope js_scope.
Delimit Scope js_scope with js.
Notation "x <- m ;; k" := (bind m (fun x => k))
  (at level 61, m at next level, right associativity) : js_scope.
Notation "m ;; k" := (bind m (fun _ => k))
  (at level 61, right associativity) : js_scope.
Open Scope js_scope.

Definition get : M World := fun w => (Ok w, w).

Definition modify (f : World -> World) : M unit := fun w => (Ok tt, f w).

Definition when (b : bool) (m : M unit) : M unit := if b then m else ret tt.

(** *** Field updates *)

Definition with_this (f : Client -> Client) (w : World) : World :=
  {| this := f (this w);
     conversationBox := conversationBox w;
     tracks := tracks w;
     opusSupported := opusSupported w;
     recorderError := recorderError w;
     pending := pending w;
     tasks := tasks w;
     timers := timers w;
     trace := trace w |}.

Definition with_conversationBox (f : option (list Element) -> option (list Element))
  (w : World) : World :=
  {| this := this w;
     conversationBox := f (conversationBox w);
     tracks := tracks w;
     opusSupported := opusSupported w;
     recorderError := recorderError w;
     pending := pending w;
     tasks := tasks w;
     timers := timers w;
     trace := trace w |}.

Definition with_tracks (f : list bool -> list bool) (w : World) : World :=
  {| this := this w;
     conversationBox := conversationBox w;
     tracks := f (tracks w);
     opusSupported := opusSupported w;
     recorderError := recorderError w;
     pending := pending w;
     tasks := tasks w;
     timers := timers w;
     trace := trace w |}.

Definition with_pending (f : list Pending -> list Pending) (w : World) : World :=
  {| this := this w;
     conversationBox := conversationBox w;
     tracks := tracks w;
     opusSupported := opusSupported w;
     recorderError := recorderError w;
     pending := f (pending w);
     tasks := tasks w;
     timers := timers w;
     trace := trace w |}.

Definition with_tasks (f : list Task -> list Task) (w : World) : World :=
  {| this := this w;
     conversationBox := conversationBox w;
     tracks := tracks w;
     opusSupported := opusSupported w;
     recorderError := recorderError w;
     pending := pending w;
     tasks := f (tasks w);
     timers := timers w;
     trace := trace w |}.

Definition with_timers (f : list N -> list N) (w : World) : World :=
  {| this := this w;
     conversationBox := conversationBox w;
     tracks := tracks w;
     opusSupported := opusSupported w;
     recorderError := recorderError w;
     pending := pending w;
     tasks := tasks w;
     timers := f (timers w);
     trace := trace w |}.

Definition with_trace (f : list Effect -> list Effect) (w : World) : World :=
  {| this := this w;
     conversationBox := conversationBox w;
     tracks := tracks w;
     opusSupported := opusSupported w;
     recorderError := recorderError w;
     pending := pending w;
     tasks := tasks w;
     timers := timers w;
     trace := f (trace w) |}.

Definition set_sessionId (v : option string) (c : Client) : Client :=
  {| sessionId := v;
     eventSource := eventSource c;
     isActive := isActive c;
     mediaRecorder := mediaRecorder c;
     audioChunks := audioChunks c |}.

Definition set_eventSource (v : option EventSource) (c : Client) : Client :=
  {| sessionId := sessionId c;
     eventSource := v;
     isActive := isActive c;
     mediaRecorder := mediaRecorder c;
     audioChunks := audioChunks c |}.

Definition set_isActive (v : bool) (c : Client) : Client :=
  {| sessionId := sessionId c;
     eventSource := eventSource c;
     isActive := v;
     mediaRecorder := mediaRecorder c;
     audioChunks := audioChunks c |}.

Definition set_mediaRecorder (v : option MediaRecorder) (c : Client) : Client :=
  {| sessionId := sessionId c;
     eventSource := eventSource c;
     isActive := isActive c;
     mediaRecorder := v;
     audioChunks := audioChunks c |}.

Definition set_audioChunks (v : list Blob) (c : Client) : Client :=
  {| sessionId := sessionId c;
     eventSource := eventSource c;
     isActive := isActive c;
     mediaRecorder := mediaRecorder c;
     audioChunks := v |}.

(** *** Primitives *)

Definition emit (e : Effect) : M unit := modify (with_trace (fun t => t ++ [e])).

Definition assign (f : Client -> Client) : M unit := modify (with_this f).

(** [fetch(target, { method: 'POST', ... })] followed by [await]: the
    request leaves and the rest of the method waits for it. *)
Definition await_fetch (target : string) (body : Body) (k : FetchCont) : M unit :=
  emit (Fetch target body) ;;
  modify (with_pending (fun p => p ++ [PFetch k])).

Definition queue_tasks (ts : list Task) : M unit :=
  modify (with_tasks (fun q => q ++ ts)).

(** ** The methods of the class *)

(** *** Display and playback *)

(** [conversationBox.appendChild(div)] when the page has a conversation
    box; the scroll position the two display methods also set is not
    part of the model. *)
Definition appendChild (cls text : string) : M unit :=
  modify (with_conversationBox (fun box =>
    match box with
    | Some children => Some (children ++ [mkElement cls text])
    | None => None
    end)).

Definition displayResponse (text : string) : M unit :=
  appendChild "assistant-message" text.

Definition displayUserMessage (text : string) : M unit :=
  appendChild "user-message" text.

Definition showError (message : string) : M unit :=
  emit (ConsoleError ("Live Voice Error: " ++ message)) ;;
  appendChild "error-message" ("Error: " ++ message).

(** [new Audio(...)] then [audio.play()].  No listener is registered on
    the audio element, so the client is not told when playback ends. *)
Definition playAudio (base64Audio : string) : M unit :=
  try_catch (emit (PlayAudio base64Audio))
            (fun _ => emit (ConsoleError "Failed to play audio:")).

(** *** The recorder of the browser

    [MediaRecorder.start()] throws an InvalidStateError unless the
    recorder is inactive, and a NotSupportedError when its stream has
    no live track; [MediaRecorder.stop()] is taken in its strict form,
    which throws on an inactive recorder.  [stop()] makes the recorder
    inactive at once and queues the [dataavailable] event with what
    was gathered, then the [stop] event.  The client catches none of
    these errors and shows none of their messages; each is thrown
    under its name. *)
Definition MediaRecorder_start : M unit :=
  w <- get ;;
  match mediaRecorder (this w) with
  | None => throw "TypeError"
  | Some r =>
      match state r with
      | inactive =>
          if live_track (tracks w) (stream r) then
            emit RecorderStart ;;
            assign (set_mediaRecorder (Some (mkRecorder recording (stream r) [])))
          else throw "NotSupportedError"
      | _ => throw "InvalidStateError"
      end
  end.

Definition MediaRecorder_stop : M unit :=
  w <- get ;;
  match mediaRecorder (this w) with
  | None => throw "TypeError"
  | Some r =>
      match state r with
      | inactive => throw "InvalidStateError"
      | _ =>
          emit RecorderStop ;;
          assign (set_mediaRecorder (Some (mkRecorder inactive (stream r) []))) ;;
          queue_tasks [TDataAvailable (gathered r); TRecorderStop]
      end
  end.

Definition recorder_in (s : RecordingState) (c : Client) : bool :=
  match mediaRecorder c with
  | Some r => RecordingState_eqb (state r) s
  | None => false
  end.

Definition startRecording : M bool :=
  w <- get ;;
  if recorder_in inactive (this w) then
    assign (set_audioChunks []) ;;
    MediaRecorder_start ;;
    emit (ConsoleLog "Recording started") ;;
    ret true
  else ret false.

Definition stopRecording : M bool :=
  w <- get ;;
  if recorder_in recording (this w) then
    MediaRecorder_stop ;;
    emit (ConsoleLog "Recording stopped") ;;
    ret true
  else ret false.

(** *** Sending *)

Definition session_url (sid : option string) (leaf : string) : string :=
  baseUrl ++ "/session/" ++ show sid ++ "/" ++ leaf.

Arguments session_url : simpl never.

(** What [await fetch(...)] yields. *)
Definition response_of (o : FetchOutcome) : M ReplyBody :=
  match o with
  | Rejected e => throw e
  | Responded body => ret body
  end.

(** What [await response.json()] yields. *)
Definition json_of (body : ReplyBody) : M ResponseData :=
  match body with
  | Json d => ret d
  | NotJson e => throw e
  end.

(** The lines shared by the text and the audio path once the reply is
    parsed: play the audio, then display the text. *)
Definition present (d : ResponseData) : M unit :=
  when (truthy (r_audio d)) (playAudio (show (r_audio d))) ;;
  when (truthy (r_text d)) (displayResponse (show (r_text d))).

Definition sendTextMessage_catch (e : string) : M unit :=
  emit (ConsoleError "Failed to send text message:") ;;
  showError e.

Definition sendTextMessage (text : string) : M unit :=
  w <- get ;;
  if negb (truthy (sessionId (this w))) || negb (truthy (Some (trim text)))
  then ret tt
  else
    try_catch
      (await_fetch (session_url (sessionId (this w)) "text") (JsonText text)
                   KSendTextMessage)
      sendTextMessage_catch.

Definition sendTextMessage_resume (o : FetchOutcome) : M unit :=
  try_catch
    (response <- response_of o ;;
     d <- json_of response ;;
     present d)
    sendTextMessage_catch.

Definition sendAudioToServer (audioBlob : Blob) : M unit :=
  w <- get ;;
  if negb (truthy (sessionId (this w))) then ret tt
  else
    try_catch
      (emit (ReadAsDataURL audioBlob) ;;
       queue_tasks [TLoadEnd audioBlob])
      (fun e => emit (ConsoleError "Failed to send audio:") ;; showError e).

(** [reader.onloadend]: it reads [this.sessionId] when it runs, and is
    not inside the [try] of [sendAudioToServer]. *)
Definition onloadend (audioBlob : Blob) : M unit :=
  w <- get ;;
  await_fetch (session_url (sessionId (this w)) "audio") (JsonAudio audioBlob)
              KSendAudio.

Definition onloadend_resume (o : FetchOutcome) : M unit :=
  response <- response_of o ;;
  d <- json_of response ;;
  present d.

(** [mediaRecorder.ondataavailable] *)
Definition ondataavailable (chunk : Blob) : M unit :=
  w <- get ;;
  when (0 <? size chunk)%nat
       (assign (set_audioChunks (audioChunks (this w) ++ [chunk]))).

(** [mediaRecorder.onstop] *)
Definition onstop : M unit :=
  w <- get ;;
  let audioBlob := newBlob (audioChunks (this w)) in
  assign (set_audioChunks []) ;;
  sendAudioToServer audioBlob.

(** *** The event stream *)

Definition setupEventStream : M unit :=
  w <- get ;;
  if negb (truthy (sessionId (this w))) then ret tt
  else
    let target := session_url (sessionId (this w)) "stream" in
    emit (OpenEventSource target) ;;
    assign (set_eventSource (Some (mkEventSource target CONNECTING))).

Definition reconnect : M unit :=
  emit (ConsoleLog "Attempting to reconnect...") ;;
  emit (SetTimeout 3000%N) ;;
  modify (with_timers (fun t => t ++ [3000%N])).

Definition handleServerMessage (d : ServerData) : M unit :=
  if truthy (type d) && (show (type d) =? "message") then
    match data d with
    | None => throw "TypeError"
    | Some message =>
        if role message =? "assistant" then
          displayResponse (content message) ;;
          when (truthy (audio message)) (playAudio (show (audio message)))
        else if role message =? "user" then
          displayUserMessage (content message)
        else ret tt
    end
  else if truthy (type d) && (show (type d) =? "heartbeat") then
    emit (ConsoleLog "Heartbeat received")
  else if truthy (error d) then
    showError (show (error d))
  else ret tt.

(** [eventSource.onmessage]; [None] is event data that is not JSON, on
    which [JSON.parse] throws.  Nothing catches that error, or the
    TypeError of reading a field of a missing object, and nothing
    shows their messages: they are thrown under their names. *)
Definition onmessage (event_data : option ServerData) : M unit :=
  match event_data with
  | None => throw "SyntaxError"
  | Some d => handleServerMessage d
  end.

(** [eventSource.onerror] *)
Definition onerror : M unit :=
  emit (ConsoleError "SSE Error:") ;;
  w <- get ;;
  match eventSource (this w) with
  | None => throw "TypeError"
  | Some es => when (ReadyState_eqb (readyState es) CLOSED) reconnect
  end.

(** *** Set-up *)

(** [setupAudioCapture] up to its [await]. *)
Definition setupAudioCapture : M unit :=
  emit GetUserMedia ;;
  modify (with_pending (fun p => p ++ [PUserMedia])).

(** [setupAudioCapture] from its [await] on.  A granted stream brings
    fresh live tracks; the recorder is built on it if the browser
    records the requested type, and otherwise the constructor throws
    with the message of the browser. *)
Definition setupAudioCapture_resume (o : MediaOutcome) : M unit :=
  try_catch
    (match o with
     | Denied e => throw e
     | Granted n =>
         w <- get ;;
         let ids := seq (length (tracks w)) n in
         modify (with_tracks (fun t => t ++ repeat true n)) ;;
         (if opusSupported w
          then assign (set_mediaRecorder (Some (mkRecorder inactive ids [])))
          else throw (recorderError w)) ;;
         emit (ConsoleLog "Audio capture setup complete")
     end)
    (fun e => emit (ConsoleError "Failed to setup audio capture:") ;; throw e).

Definition initialize_catch (e : string) : M bool :=
  emit (ConsoleError "Failed to initialize Live Voice Client:") ;;
  showError e ;;
  ret false.

Definition initialize : M bool :=
  emit (ConsoleLog "Initializing Server-Side Live Voice Client...") ;;
  try_catch
    (await_fetch (baseUrl ++ "/session/create") NoBody KInitialize ;;
     ret true)
    initialize_catch.

(** [initialize] once the create request has settled, up to the [await]
    of [setupAudioCapture]. *)
Definition initialize_resume (o : FetchOutcome) : M bool :=
  try_catch
    (response <- response_of o ;;
     d <- json_of response ;;
     assign (set_sessionId (session_id d)) ;;
     setupEventStream ;;
     setupAudioCapture ;;
     ret true)
    initialize_catch.

(** [initialize] once [getUserMedia] has settled. *)
Definition initialize_finish (o : MediaOutcome) : M bool :=
  try_catch
    (setupAudioCapture_resume o ;;
     assign (set_isActive true) ;;
     emit (ConsoleLog "Live Voice Client initialized successfully") ;;
     ret true)
    initialize_catch.

(** *** Shutdown *)

Fixpoint stop_track (id : nat) (t : list bool) : list bool :=
  match t, id with
  | [], _ => []
  | _ :: rest, O => false :: rest
  | live :: rest, S id' => live :: stop_track id' rest
  end.

Fixpoint forEach {A : Type} (f : A -> M unit) (l : list A) : M unit :=
  match l with
  | [] => ret tt
  | x :: rest => f x ;; forEach f rest
  end.

(** [track.stop()] *)
Definition track_stop (id : nat) : M unit :=
  emit (TrackStop id) ;;
  modify (with_tracks (stop_track id)).

Definition end_catch (e : string) : M unit :=
  emit (ConsoleError "Failed to end session:").

(** [end()] up to its [await]. *)
Definition end_ : M unit :=
  w <- get ;;
  if negb (truthy (sessionId (this w))) then ret tt
  else
    try_catch
      (stopRecording ;;
       w1 <- get ;;
       (match eventSource (this w1) with
        | Some _ => emit CloseEventSource ;; assign (set_eventSource None)
        | None => ret tt
        end) ;;
       await_fetch (session_url (sessionId (this w1)) "end") NoBody KEnd)
      end_catch.

(** [end()] from its [await] on. *)
Definition end_resume (o : FetchOutcome) : M unit :=
  try_catch
    (response_of o ;;
     w <- get ;;
     (match mediaRecorder (this w) with
      | Some r => forEach track_stop (stream r)
      | None => ret tt
      end) ;;
     assign (set_isActive false) ;;
     assign (set_sessionId None) ;;
     emit (ConsoleLog "Live voice session ended"))
    end_catch.

(** ** The event loop *)

Inductive Action : Type :=
| CallInitialize
| CallSendTextMessage (text : string)
| CallStartRecording
| CallStopRecording
| CallEnd
| SettleFetch (i : nat) (o : FetchOutcome)   (* the i-th pending promise, a fetch, settles *)
| SettleMedia (i : nat) (o : MediaOutcome)   (* the i-th pending promise, getUserMedia, settles *)
| RunTask                                    (* the oldest queued event is delivered *)
| Capture (b : Blob)                         (* the microphone delivers audio to the recorder *)
| SseOpen                                    (* the event stream connects *)
| SseMessage (event_data : option ServerData)
| SseError (rs : ReadyState)                 (* the stream fails and is left in state rs *)
| Elapse (ms : N).                           (* time passes *)

(** Runs a callback or a method to its end or to its first [await]; an
    exception that leaves it is reported and otherwise lost. *)
Definition run_callback {A : Type} (m : M A) (w : World) : World :=
  match m w with
  | (Ok _, w') => w'
  | (Throw e, w') => with_trace (fun t => t ++ [Uncaught e]) w'
  end.

Fixpoint remove_nth {A : Type} (i : nat) (l : list A) : list A :=
  match l, i with
  | [], _ => []
  | _ :: rest, O => rest
  | x :: rest, S i' => x :: remove_nth i' rest
  end.

Definition resume (k : FetchCont) (o : FetchOutcome) : World -> World :=
  match k with
  | KInitialize => run_callback (initialize_resume o)
  | KSendTextMessage => run_callback (sendTextMessage_resume o)
  | KSendAudio => run_callback (onloadend_resume o)
  | KEnd => run_callback (end_resume o)
  end.

Definition deliver (t : Task) : World -> World :=
  match t with
  | TDataAvailable chunk => run_callback (ondataavailable chunk)
  | TRecorderStop => run_callback onstop
  | TLoadEnd b => run_callback (onloadend b)
  end.

(** The callback of every timer is the one [reconnect] registers. *)
Fixpoint fire (n : nat) (w : World) : World :=
  match n with
  | O => w
  | S n' => fire n' (run_callback setupEventStream w)
  end.

Definition elapse (ms : N) (w : World) : World :=
  let due := filter (fun r => (r <=? ms)%N) (timers w) in
  let later := filter (fun r => (ms <? r)%N) (timers w) in
  fire (length due) (with_timers (fun _ => map (fun r => (r - ms)%N) later) w).

Definition set_readyState (rs : ReadyState) (c : Client) : Client :=
  match eventSource c with
  | Some es => set_eventSource (Some (mkEventSource (url es) rs)) c
  | None => c
  end.

Definition stream_is (rs : ReadyState) (c : Client) : bool :=
  match eventSource c with
  | Some es => ReadyState_eqb (readyState es) rs
  | None => false
  end.

Definition gather (b : Blob) (c : Client) : Client :=
  match mediaRecorder c with
  | Some r => set_mediaRecorder (Some (mkRecorder (state r) (stream r) (gathered r ++ b))) c
  | None => c
  end.

(** One method call or one browser event; [None] when the browser
    cannot produce the event in this world. *)
Definition step (a : Action) (w : World) : option World :=
  match a with
  | CallInitialize => Some (run_callback initialize w)
  | CallSendTextMessage text => Some (run_callback (sendTextMessage text) w)
  | CallStartRecording => Some (run_callback startRecording w)
  | CallStopRecording => Some (run_callback stopRecording w)
  | CallEnd => Some (run_callback end_ w)
  | SettleFetch i o =>
      match nth_error (pending w) i with
      | Some (PFetch k) => Some (resume k o (with_pending (remove_nth i) w))
      | _ => None
      end
  | SettleMedia i o =>
      match nth_error (pending w) i with
      | Some PUserMedia =>
          Some (run_callback (initialize_finish o) (with_pending (remove_nth i) w))
      | _ => None
      end
  | RunTask =>
      match tasks w with
      | t :: rest => Some (deliver t (with_tasks (fun _ => rest) w))
      | [] => None
      end
  | Capture b =>
      if recorder_in recording (this w)
      then Some (with_this (gather b) w)
      else None
  | SseOpen =>
      if stream_is CONNECTING (this w)
      then Some (with_this (set_readyState OPEN) w)
      else None
  | SseMessage event_data =>
      if stream_is OPEN (this w)
      then Some (run_callback (onmessage event_data) w)
      else None
  | SseError rs =>
      if negb (stream_is CLOSED (this w)) && negb (ReadyState_eqb rs OPEN)
         && match eventSource (this w) with Some _ => true | None => false end
      then Some (run_callback onerror (with_this (set_readyState rs) w))
      else None
  | Elapse ms => Some (elapse ms w)
  end.

Fixpoint run (actions : list Action) (w : World) : option World :=
  match actions with
  | [] => Some w
  | a :: rest =>
      match step a w with
      | Some w' => run rest w'
      | None => None
      end
  end.

(** A freshly loaded page: a new client, a conversation box, a browser
    that records opus, and nothing under way. *)
Definition page : World :=
  {| this := constructor;
     conversationBox := Some [];
     tracks := [];
     opusSupported := true;
     recorderError := unsupported;
     pending := [];
     tasks := [];
     timers := [];
     trace := [] |}.

(** ** Observations on a trace *)

(** The requests sent, oldest first. *)
Fixpoint requests (t : list Effect) : list (string * Body) :=
  match t with
  | [] => []
  | Fetch target body :: rest => (target, body) :: requests rest
  | _ :: rest => requests rest
  end.

(** The delays of the timers registered, oldest first. *)
Fixpoint retry_delays (t : list Effect) : list N :=
  match t with
  | [] => []
  | SetTimeout ms :: rest => ms :: retry_delays rest
  | _ :: rest => retry_delays rest
  end.

(** The event streams opened, oldest first. *)
Fixpoint streams_opened (t : list Effect) : list string :=
  match t with
  | [] => []
  | OpenEventSource target :: rest => target :: streams_opened rest
  | _ :: rest => streams_opened rest
  end.

(** The tracks stopped, oldest first. *)
Fixpoint released (t : list Effect) : list nat :=
  match t with
  | [] => []
  | TrackStop id :: rest => id :: released rest
  | _ :: rest => released rest
  end.

(** The exceptions that left a callback. *)
Fixpoint uncaught (t : list Effect) : list string :=
  match t with
  | [] => []
  | Uncaught e :: rest => e :: uncaught rest
  | _ :: rest => uncaught rest
  end.

Definition is_close (e : Effect) : bool :=
  match e with CloseEventSource => true | _ => false end.

Definition is_recorder_stop (e : Effect) : bool :=
  match e with RecorderStop => true | _ => false end.

(** What happened between an earlier world and a later one. *)
Definition since (w w' : World) : list Effect := skipn (length (trace w)) (trace w').

(** ** Worlds and runs used below *)

(** A session is created, the microphone is granted, the stream opens. *)
Definition start_up : list Action :=
  [CallInitialize;
   SettleFetch 0 (Responded (Json (mkResponse (Some "s1") None None)));
   SettleMedia 0 (Granted 1);
   SseOpen].

Definition live : World :=
  Eval vm_compute in
    match run start_up page with
    | Some w => w
    | None => page
    end.

(** [end()] called and awaited: the call and, when it sent its request,
    the settling of that request. *)
Definition end_awaited (o : FetchOutcome) (w : World) : option World :=
  if truthy (sessionId (this w))
  then run [CallEnd; SettleFetch (length (pending w)) o] w
  else run [CallEnd] w.

(** The connection is lost [n] times in a row, each loss followed by
    the wait that [reconnect] asks for. *)
Fixpoint losses (n : nat) : list Action :=
  match n with
  | O => []
  | S n' => SseError CLOSED :: Elapse 3000 :: losses n'
  end.

(** One utterance: recording starts, the microphone delivers the audio,
    recording stops, and the browser delivers the three events that
    follow ([dataavailable], [stop], the reader's [loadend]). *)
Definition utterance (b : Blob) : list Action :=
  [CallStartRecording; Capture b; CallStopRecording; RunTask; RunTask; RunTask].

(** The requests that carry audio. *)
Fixpoint audio_sent (t : list Effect) : list Blob :=
  match t with
  | [] => []
  | Fetch _ (JsonAudio b) :: rest => b :: audio_sent rest
  | _ :: rest => audio_sent rest
  end.

(** The stream of the recorder, if the client has one, has a live
    track. *)
Definition stream_live (w : World) : bool :=
  match mediaRecorder (this w) with
  | Some r => live_track (tracks w) (stream r)
  | None => true
  end.

(** Calls of the two recording methods, in any order. *)
Inductive RecordingCall : Type := Start | Stop.

Fixpoint perform (calls : list RecordingCall) : M unit :=
  match calls with
  | [] => ret tt
  | Start :: rest => startRecording ;; perform rest
  | Stop :: rest => stopRecording ;; perform rest
  end.

(** The states of the conversation state machine. *)
Inductive ConversationState : Type :=
| Idle | Listening | UserSpeaking | Processing | AiResponding | Error | Closed.

Definition assistant_event (text : string) (sound : option string) : ServerData :=
  {| type := Some "message";
     data := Some (mkMessage "assistant" text sound);
     error := None |}.

Definition heartbeat_event : ServerData :=
  {| type := Some "heartbeat"; data := None; error := None |}.

(** The world [live] after [end()] was called and awaited, with the
    request answered and with the request failing. *)
Definition ended : World :=
  Eval vm_compute in
    match end_awaited (Responded acknowledged) live with
    | Some w => w
    | None => page
    end.

Definition end_failed : World :=
  Eval vm_compute in
    match end_awaited (Rejected "Failed to fetch") live with
    | Some w => w
    | None => page
    end.

(** The world [end_failed] after a second [end()] whose request is
    answered. *)
Definition ended_at_last : World :=
  Eval vm_compute in
    match end_awaited (Responded acknowledged) end_failed with
    | Some w => w
    | None => page
    end.

(** A page in a browser that cannot record audio/webm;codecs=opus. *)
Definition page_without_opus : World :=
  {| this := constructor;
     conversationBox := Some [];
     tracks := [];
     opusSupported := false;
     recorderError := unsupported;
     pending := [];
     tasks := [];
     timers := [];
     trace := [] |}.

(** What one lost connection adds to the trace. *)
Definition loss_effects (sid : option string) : list Effect :=
  [ConsoleError "SSE Error:";
   ConsoleLog "Attempting to reconnect...";
   SetTimeout 3000%N;
   OpenEventSource (session_url sid "stream")].



(** A computation, or a change of the world, that registers no timer. *)
Definition quiet {A : Type} (m : M A) : Prop :=
  forall w, retry_delays (trace (snd (m w))) = retry_delays (trace w).

Definition quiet_change (f : World -> World) : Prop :=
  forall w, retry_delays (trace (f w)) = retry_delays (trace w).

(** ** The session log of the server *)

Module SessionManager.

(** Modelled from the spec: the server-side SessionManager and its
    session log (sections 3 and 4.4 of the specification); the server
    is not among the sources, only the client that calls it.  A Session
    has an ordered log of Messages, each with a sequence number that is
    monotonic per session, and at most one Turn in flight.  [create]
    allocates a Session under a fresh id; [submit] fails with
    [SessionNotFound] for an unknown or expired id and with
    [TurnInProgress] while a Turn is active, and otherwise marks a Turn
    active; the completion of the Turn appends the assistant Message to
    the log and clears the Turn; [end_session] and the idle timeout
    destroy the Session.  The number given to an appended Message is
    the next one of its session, the first being 1 as in the scenario
    of section 8. *)
Record Entry : Type := mkEntry {
  message : Message;
  sequence : nat
}.

Record Session : Type := mkSession {
  log : list Entry;
  next_sequence : nat;
  turn_active : bool
}.

Record Manager : Type := mkManager {
  sessions : list (nat * Session);
  next_id : nat
}.

Inductive Failure : Type := SessionNotFound | TurnInProgress.

Definition start : Manager := {| sessions := []; next_id := 0 |}.

Definition new_session : Session :=
  {| log := []; next_sequence := 1; turn_active := false |}.

Fixpoint lookup (id : nat) (l : list (nat * Session)) : option Session :=
  match l with
  | [] => None
  | (id', s) :: rest => if id =? id' then Some s else lookup id rest
  end%nat.

Fixpoint replace (id : nat) (s : Session) (l : list (nat * Session))
  : list (nat * Session) :=
  match l with
  | [] => []
  | (id', s') :: rest =>
      if id =? id' then (id', s) :: rest else (id', s') :: replace id s rest
  end%nat.

Fixpoint remove (id : nat) (l : list (nat * Session)) : list (nat * Session) :=
  match l with
  | [] => []
  | (id', s') :: rest =>
      if id =? id' then remove id rest else (id', s') :: remove id rest
  end%nat.

Definition create (m : Manager) : nat * Manager :=
  (next_id m,
   {| sessions := (next_id m, new_session) :: sessions m;
      next_id := S (next_id m) |}).

Definition submit (id : nat) (m : Manager) : Failure + Manager :=
  match lookup id (sessions m) with
  | None => inl SessionNotFound
  | Some s =>
      if turn_active s then inl TurnInProgress
      else inr {| sessions :=
                    replace id {| log := log s;
                                  next_sequence := next_sequence s;
                                  turn_active := true |} (sessions m);
                  next_id := next_id m |}
  end.

(** The backend has answered the Turn in flight. *)
Definition complete (id : nat) (reply : Message) (m : Manager) : Manager :=
  match lookup id (sessions m) with
  | None => m
  | Some s =>
      if turn_active s then
        {| sessions :=
             replace id {| log := log s ++ [mkEntry reply (next_sequence s)];
                           next_sequence := S (next_sequence s);
                           turn_active := false |} (sessions m);
           next_id := next_id m |}
      else m
  end.

Definition end_session (id : nat) (m : Manager) : Manager :=
  {| sessions := remove id (sessions m); next_id := next_id m |}.

Inductive Request : Type :=
| Create
| Submit (id : nat)
| Complete (id : nat) (reply : Message)
| End (id : nat)
| Expire (id : nat).

(** A refused request leaves the manager as it was. *)
Definition handle (m : Manager) (r : Request) : Manager :=
  match r with
  | Create => snd (create m)
  | Submit id =>
      match submit id m with
      | inr m' => m'
      | inl _ => m
      end
  | Complete id reply => complete id reply m
  | End id => end_session id m
  | Expire id => end_session id m
  end.

Definition serve (requests : list Request) (m : Manager) : Manager :=
  fold_left handle requests m.

(** The log is numbered 1, 2, 3, ... and the next number follows. *)
Definition well_numbered (s : Session) : Prop :=
  map sequence (log s) = seq 1 (length (log s)) /\
  next_sequence s = S (length (log s)).

End SessionManager.

(** ** Further runs and observations *)

(** [initialize()] called and awaited as far as it gets: the call, the
    settling of the create request and, when the microphone was asked
    for, the settling of [getUserMedia]. *)
Definition initialize_awaited (o : FetchOutcome) (m : MediaOutcome) (w : World)
  : option World :=
  run [CallInitialize;
       SettleFetch (length (pending w)) o;
       SettleMedia (length (pending w)) m] w.

(** [initialize()] when the create request fails: the call and the
    settling of the request. *)
Definition initialize_refused (o : FetchOutcome) (w : World) : option World :=
  run [CallInitialize; SettleFetch (length (pending w)) o] w.

Definition error_element (message : string) : Element :=
  mkElement "error-message" ("Error: " ++ message).

(** The conversation box after one more element, when there is a box. *)
Definition appended (e : Element) (box : option (list Element))
  : option (list Element) :=
  option_map (fun children => children ++ [e]) box.

(** The text is empty or white space only. *)
Fixpoint all_white_space (s : string) : bool :=
  match s with
  | EmptyString => true
  | String a rest => is_white_space a && all_white_space rest
  end.

(** The text is made of ASCII characters only; on such a text the
    white space that [trim] removes is the white space of
    [is_white_space]. *)
Fixpoint ascii_only (s : string) : bool :=
  match s with
  | EmptyString => true
  | String a rest => (nat_of_ascii a <? 128)%nat && ascii_only rest
  end.

(** The message with which a settled request makes [await] throw, if it
    does: that of the rejection, or that of [response.json()] on a
    body that is not JSON. *)
Definition failure_of (o : FetchOutcome) : option string :=
  match o with
  | Rejected e => Some e
  | Responded (NotJson e) => Some e
  | Responded (Json _) => None
  end.

Definition is_track_stop (e : Effect) : bool :=
  match e with TrackStop _ => true | _ => false end.

Definition is_request (e : Effect) : bool :=
  match e with Fetch _ _ => true | _ => false end.

Definition is_get_user_media (e : Effect) : bool :=
  match e with GetUserMedia => true | _ => false end.

(** A computation, or a change of the world, that adds no effect of
    the kind [p] to the trace. *)
Definition without {A : Type} (p : Effect -> bool) (m : M A) : Prop :=
  forall w, filter p (trace (snd (m w))) = filter p (trace w).

Definition change_without (p : Effect -> bool) (f : World -> World) : Prop :=
  forall w, filter p (trace (f w)) = filter p (trace w).

(** The track is not live (a track the world does not have is not). *)
Definition track_ended (id : nat) (w : World) : bool :=
  negb (nth id (tracks w) false).

(** What holds of the recorder and the tracks in every world the client
    can reach: the tracks of the recorder's stream are distinct tracks
    of the world and the recorder is not paused; a client without a
    recorder is not active. *)
Definition recorder_sound (w : World) : Prop :=
  match mediaRecorder (this w) with
  | Some r =>
      NoDup (stream r) /\
      Forall (fun id => id < length (tracks w)) (stream r) /\
      state r <> paused
  | None => isActive (this w) = false
  end.

(** The world [live] with a text submission under way, and with an
    utterance sent and not yet answered. *)
Definition asked : World :=
  Eval vm_compute in
    match step (CallSendTextMessage "hello") live with
    | Some w => w
    | None => page
    end.

Definition spoken : World :=
  Eval vm_compute in
    match run (utterance [Byte.x01]) live with
    | Some w => w
    | None => page
    end.

(** A push event that is a Message. *)
Definition message_event (m : Message) (detail : option string) : ServerData :=
  {| type := Some "message"; data := Some m; error := detail |}.

(** The world [live] while [end()] awaits its request. *)
Definition ending : World :=
  Eval vm_compute in
    match step CallEnd live with
    | Some w => w
    | None => page
    end.

(** The world [live] after the connection was lost and the client has
    scheduled its reconnection. *)
Definition waiting : World :=
  Eval vm_compute in
    match step (SseError CLOSED) live with
    | Some w => w
    | None => page
    end.

(** [end()] called while a reconnection is scheduled: the timer fires
    before the request of [end()] is answered. *)
Definition end_during_wait (json : ReplyBody) (w : World) : option World :=
  run [CallEnd; Elapse 3000; SettleFetch (length (pending w)) (Responded json)] w.

(** The fresh page while [initialize()] awaits its create request. *)
Definition creating : World :=
  Eval vm_compute in
    match step CallInitialize page with
    | Some w => w
    | None => page
    end.

(** The world [live] after the connection was lost and then [end()] was
    called and answered: the timer of the reconnection is still
    pending. *)
Definition lingering : World :=
  Eval vm_compute in
    match run [SseError CLOSED; CallEnd; SettleFetch 0 (Responded acknowledged)] live with
    | Some w => w
    | None => page
    end.

(** The world [live] after the session ended while an utterance was
    being recorded: the events of the recorder's stop are still
    queued. *)
Definition cut_short : World :=
  Eval vm_compute in
    match run [CallStartRecording; Capture [Byte.x01; Byte.x02]; CallEnd;
               SettleFetch 0 (Responded acknowledged); RunTask] live with
    | Some w => w
    | None => page
    end.

(** An utterance is being recorded when [end()] is called; the two
    events of the recorder's stop are delivered, the request of
    [end()] is answered, and only then does the reader finish. *)
Definition end_before_loadend (b : Blob) (reply : ReplyBody) (w : World)
  : option World :=
  run [CallStartRecording; Capture b; CallEnd; RunTask; RunTask;
       SettleFetch (length (pending w)) (Responded reply); RunTask] w.

(** ** Basic facts *)

Lemma live_reachable : run start_up page = Some live.
Proof. reflexivity. Qed.

Lemma skipn_length_app {A : Type} (l t : list A) : skipn (length l) (l ++ t) = t.
Proof. induction l as [|x l IH]; simpl; auto. Qed.

Lemma since_app (w w' : World) (t : list Effect) :
  trace w' = trace w ++ t -> since w w' = t.
Proof. intros H. unfold since. rewrite H. apply skipn_length_app. Qed.

Lemma since_refl (w : World) : since w w = [].
Proof. apply since_app. now rewrite app_nil_r. Qed.

Lemma nth_error_length_app {A : Type} (l : list A) (x : A) :
  nth_error (l ++ [x]) (length l) = Some x.
Proof. induction l; simpl; auto. Qed.

Lemma remove_nth_length_app {A : Type} (l : list A) (x : A) :
  remove_nth (length l) (l ++ [x]) = l.
Proof. induction l; simpl; auto. now f_equal. Qed.

Lemma truthy_inv (v : option string) :
  truthy v = true -> exists a s, v = Some (String a s).
Proof. destruct v as [[|a s]|]; simpl; try discriminate. eauto. Qed.

Lemma released_app (t1 t2 : list Effect) :
  released (t1 ++ t2) = released t1 ++ released t2.
Proof. induction t1 as [|[] t1 IH]; simpl; auto. now f_equal. Qed.

Lemma uncaught_app (t1 t2 : list Effect) :
  uncaught (t1 ++ t2) = uncaught t1 ++ uncaught t2.
Proof. induction t1 as [|[] t1 IH]; simpl; auto. now f_equal. Qed.

Lemma retry_delays_app (t1 t2 : list Effect) :
  retry_delays (t1 ++ t2) = retry_delays t1 ++ retry_delays t2.
Proof. induction t1 as [|[] t1 IH]; simpl; auto. now f_equal. Qed.

Lemma streams_opened_app (t1 t2 : list Effect) :
  streams_opened (t1 ++ t2) = streams_opened t1 ++ streams_opened t2.
Proof. induction t1 as [|[] t1 IH]; simpl; auto. now f_equal. Qed.

Lemma audio_sent_app (t1 t2 : list Effect) :
  audio_sent (t1 ++ t2) = audio_sent t1 ++ audio_sent t2.
Proof.
  induction t1 as [|e t1 IH]; simpl; auto.
  destruct e; auto. destruct body; auto. simpl. now f_equal.
Qed.

Lemma released_stops (l : list nat) : released (map TrackStop l) = l.
Proof. induction l; simpl; auto. now f_equal. Qed.

Lemma uncaught_stops (l : list nat) : uncaught (map TrackStop l) = [].
Proof. induction l; simpl; auto. Qed.

Lemma filter_stops (p : Effect -> bool) (l : list nat) :
  (forall id, p (TrackStop id) = false) -> filter p (map TrackStop l) = [].
Proof. intros H. induction l; simpl; auto. now rewrite H. Qed.

(** ** Evaluating the methods *)

Ltac js_unfold :=
  unfold initialize, initialize_resume, initialize_finish, initialize_catch,
    setupAudioCapture, setupAudioCapture_resume,
    sendTextMessage, sendAudioToServer, startRecording, stopRecording,
    MediaRecorder_start, MediaRecorder_stop, end_, end_resume, end_catch,
    setupEventStream, reconnect, onerror, onmessage, handleServerMessage,
    onstop, ondataavailable, onloadend, onloadend_resume,
    sendTextMessage_resume, sendTextMessage_catch, present, playAudio,
    displayResponse, displayUserMessage, showError, appendChild,
    await_fetch, queue_tasks, response_of, json_of,
    emit, assign, modify, when, get, try_catch, throw, bind, ret in *.

Ltac crunch :=
  unfold end_awaited, run, step, resume, deliver, run_callback in *;
  unfold stream_is, set_readyState, gather in *;
  js_unfold;
  unfold with_this, with_conversationBox, with_tracks, with_pending, with_tasks,
    with_timers, with_trace, set_sessionId, set_eventSource, set_isActive,
    set_mediaRecorder, set_audioChunks in *;
  cbn in *.

(** [forEach(track => track.stop())] stops the tracks in order. *)
Lemma forEach_track_stop (l : list nat) (w : World) :
  forEach track_stop l w =
  (Ok tt,
   with_trace (fun t => t ++ map TrackStop l)
     (with_tracks (fun live => fold_left (fun a id => stop_track id a) l live) w)).
Proof.
  revert w. induction l as [|id l IH]; intros w.
  - destruct w; unfold with_trace, with_tracks; simpl. now rewrite app_nil_r.
  - simpl. unfold bind. unfold track_stop at 1. js_unfold. rewrite IH.
    unfold with_trace, with_tracks. simpl. now rewrite <- app_assoc.
Qed.

Ltac evaluate :=
  repeat (progress (crunch;
    rewrite ?nth_error_length_app, ?remove_nth_length_app, ?forEach_track_stop in * )).

Ltac observe :=
  unfold since; simpl trace; rewrite <- ?app_assoc; rewrite ?skipn_length_app;
  rewrite ?uncaught_app, ?released_app, ?filter_app, ?uncaught_stops, ?released_stops,
    ?filter_stops by reflexivity;
  simpl; rewrite ?app_nil_r.

(** ** Sending needs a session *)

(** C9.  While [sessionId] is null, a call of [sendTextMessage] or of
    [sendAudioToServer] returns at its guard: the world after the call
    is the world before it, so no request was sent (the trace and the
    pending promises are the same) and no field of the client
    changed. *)
Theorem nothing_sent_without_session (w : World) (text : string) (audioBlob : Blob) :
  sessionId (this w) = None ->
  sendTextMessage text w = (Ok tt, w) /\
  sendAudioToServer audioBlob w = (Ok tt, w) /\
  step (CallSendTextMessage text) w = Some w.
Proof.
  intros H. unfold step, run_callback. js_unfold. rewrite H. simpl. auto.
Qed.

Lemma nothing_sent_without_session_witness :
  sessionId (this page) = None /\
  sendTextMessage "hello" page = (Ok tt, page) /\
  sendAudioToServer [Byte.x01] page = (Ok tt, page) /\
  step (CallSendTextMessage "hello") page = Some page.
Proof.
  split; [reflexivity|].
  apply (nothing_sent_without_session page "hello" [Byte.x01]). reflexivity.
Defined.

(** ** Recording *)

Lemma startRecording_starts (w : World) :
  recorder_in inactive (this w) = true ->
  stream_live w = true ->
  exists w',
    startRecording w = (Ok true, w') /\
    audioChunks (this w') = [] /\
    recorder_in recording (this w') = true /\
    trace w' = trace w ++ [RecorderStart; ConsoleLog "Recording started"] /\
    stream_live w' = true.
Proof.
  intros Hrec Hlive.
  destruct w as [[sid es act rec chunks] box live opus why pend tsk tim t].
  unfold stream_live in *.
  destruct rec as [[[] strm g]|]; cbn in Hrec, Hlive; try discriminate.
  unfold startRecording, MediaRecorder_start. js_unfold. cbn.
  rewrite Hlive. cbn.
  eexists. split; [reflexivity|]. cbn.
  rewrite <- app_assoc. auto.
Qed.

Lemma startRecording_refuses (w : World) :
  recorder_in inactive (this w) = false -> startRecording w = (Ok false, w).
Proof.
  intros Hrec. unfold startRecording. js_unfold. now rewrite Hrec.
Qed.

Lemma stopRecording_spec (w : World) :
  exists w',
    stopRecording w = (Ok (recorder_in recording (this w)), w') /\
    stream_live w' = stream_live w /\
    if recorder_in recording (this w)
    then recorder_in inactive (this w') = true /\
         trace w' = trace w ++ [RecorderStop; ConsoleLog "Recording stopped"]
    else w' = w.
Proof.
  destruct w as [[sid es act rec chunks] box live opus why pend tsk tim t].
  unfold stopRecording, MediaRecorder_stop, recorder_in, stream_live.
  destruct rec as [[[] strm g]|]; js_unfold; cbn;
    (eexists; split; [reflexivity|]); cbn; auto.
  rewrite <- app_assoc. auto.
Qed.

Lemma perform_total (calls : list RecordingCall) :
  forall w : World,
    stream_live w = true ->
    exists w', perform calls w = (Ok tt, w').
Proof.
  induction calls as [|[] calls IH]; intros w Hlive; simpl.
  - eexists; reflexivity.
  - unfold bind. destruct (recorder_in inactive (this w)) eqn:Hrec.
    + destruct (startRecording_starts w Hrec Hlive) as [w1 [E [_ [_ [_ L]]]]].
      rewrite E. now apply IH.
    + rewrite (startRecording_refuses w Hrec). now apply IH.
  - unfold bind. destruct (stopRecording_spec w) as [w1 [E [L _]]]. rewrite E.
    apply IH. now rewrite L.
Qed.

(** C10, as amended.  [startRecording()] returns true, having emptied
    [audioChunks] and started the recorder, when a recorder exists, is
    inactive and has a live track in its stream; it returns false and
    changes nothing when there is no recorder or the recorder is not
    inactive.  [stopRecording()] returns true exactly when the
    recorder is recording; it then stops it, and otherwise changes
    nothing.  As long as the stream of the recorder has a live track,
    no sequence of the two calls throws. *)
Theorem recording_calls_are_guarded (w : World) :
  (recorder_in inactive (this w) = true ->
   stream_live w = true ->
   exists w',
     startRecording w = (Ok true, w') /\
     audioChunks (this w') = [] /\
     recorder_in recording (this w') = true /\
     trace w' = trace w ++ [RecorderStart; ConsoleLog "Recording started"]) /\
  (recorder_in inactive (this w) = false ->
   startRecording w = (Ok false, w)) /\
  (exists w',
     stopRecording w = (Ok (recorder_in recording (this w)), w') /\
     if recorder_in recording (this w)
     then recorder_in inactive (this w') = true /\
          trace w' = trace w ++ [RecorderStop; ConsoleLog "Recording stopped"]
     else w' = w) /\
  (stream_live w = true ->
   forall calls, exists w', perform calls w = (Ok tt, w')).
Proof.
  split; [|split; [|split]].
  - intros Hrec Hlive.
    destruct (startRecording_starts w Hrec Hlive) as [w' [E [C [R [T _]]]]].
    eauto.
  - apply startRecording_refuses.
  - destruct (stopRecording_spec w) as [w' [E [_ H]]]. eauto.
  - intros Hlive calls. now apply perform_total.
Qed.

Lemma recording_calls_are_guarded_witness :
  (exists w',
     startRecording live = (Ok true, w') /\
     audioChunks (this w') = [] /\
     recorder_in recording (this w') = true /\
     trace w' = trace live ++ [RecorderStart; ConsoleLog "Recording started"]) /\
  startRecording page = (Ok false, page) /\
  (exists w', perform [Stop; Start; Start; Stop; Stop; Start] live = (Ok tt, w')).
Proof.
  destruct (recording_calls_are_guarded live) as [H1 [_ [_ H4]]].
  destruct (recording_calls_are_guarded page) as [_ [H2 _]].
  split; [exact (H1 eq_refl eq_refl)|].
  split; [exact (H2 eq_refl)|].
  exact (H4 eq_refl [Stop; Start; Start; Stop; Stop; Start]).
Defined.

(** C10, as stated, fails: after an [end()] that was answered, the
    recorder is still there and inactive, on tracks that have all
    ended; the guard of [startRecording()] lets the call through, the
    buffer is emptied and the recorder's [start()] throws. *)
Lemma start_after_end_throws :
  run (start_up ++ [CallEnd; SettleFetch 0 (Responded acknowledged)]) page
    = Some ended /\
  recorder_in inactive (this ended) = true /\
  stream_live ended = false /\
  startRecording ended = (Throw "NotSupportedError", ended) /\
  perform [Start] ended = (Throw "NotSupportedError", ended) /\
  exists w',
    step CallStartRecording ended = Some w' /\
    uncaught (since ended w') = ["NotSupportedError"].
Proof.
  split; [vm_compute; reflexivity|].
  split; [reflexivity|]. split; [reflexivity|].
  split; [vm_compute; reflexivity|]. split; [vm_compute; reflexivity|].
  eexists. split; vm_compute; reflexivity.
Qed.

(** ** Ending a session *)

(** C1, as amended.  When [sessionId] is null or empty (the session was
    never started, or an earlier [end()] ran to completion), [end()]
    returns at its guard and the world is unchanged; in particular a
    second [end()] after one whose request was answered does nothing.
    When a second [end()] follows a first one that was awaited,
    whatever the two requests did, no exception leaves either call, the
    event stream is closed at most once, the recorder is stopped at
    most once, and no track is stopped twice. *)
Theorem end_twice (w : World) :
  (truthy (sessionId (this w)) = false ->
     end_ w = (Ok tt, w) /\ step CallEnd w = Some w) /\
  (forall json w1, end_awaited (Responded json) w = Some w1 ->
     step CallEnd w1 = Some w1) /\
  (forall o1 o2 w1 w2,
     end_awaited o1 w = Some w1 -> end_awaited o2 w1 = Some w2 ->
     uncaught (since w w2) = [] /\
     length (filter is_close (since w w2)) <= 1 /\
     length (filter is_recorder_stop (since w w2)) <= 1 /\
     forall r, mediaRecorder (this w) = Some r -> NoDup (stream r) ->
               NoDup (released (since w w2))).
Proof.
  destruct w as [[sid es act rec chunks] box live opus why pend tsk tim t].
  destruct sid as [[|a s]|].
  - crunch. split; [auto|]. split.
    + intros json w1 H. injection H as <-. reflexivity.
    + intros o1 o2 w1 w2 H1. injection H1 as <-. simpl.
      intros H2; injection H2 as <-.
      unfold since; simpl. rewrite skipn_all. simpl.
      repeat split; auto. intros; constructor.
  - split; [discriminate|]. split.
    + intros json w1 H.
      destruct rec as [[[] strm g]|]; destruct es as [e|]; evaluate;
        injection H as <-; reflexivity.
    + intros o1 o2 w1 w2 H1 H2.
      destruct rec as [[[] strm g]|]; destruct es as [e|]; destruct o1 as [m1|j1];
        evaluate; injection H1 as <-; evaluate;
        try destruct o2 as [m2|j2]; evaluate;
        injection H2 as <-; observe;
        (repeat split; auto;
         intros r Hr Hnd; try discriminate; try injection Hr as <-; simpl in *;
         auto; constructor).
  - crunch. split; [auto|]. split.
    + intros json w1 H. injection H as <-. reflexivity.
    + intros o1 o2 w1 w2 H1. injection H1 as <-. simpl.
      intros H2; injection H2 as <-.
      unfold since; simpl. rewrite skipn_all. simpl.
      repeat split; auto. intros; constructor.
Qed.

Lemma end_twice_witness :
  (truthy (sessionId (this page)) = false /\
   end_ page = (Ok tt, page) /\ step CallEnd page = Some page) /\
  (end_awaited (Responded acknowledged) live = Some ended /\
   step CallEnd ended = Some ended) /\
  (end_awaited (Rejected "Failed to fetch") live = Some end_failed /\
   end_awaited (Responded acknowledged) end_failed = Some ended_at_last /\
   uncaught (since live ended_at_last) = [] /\
   NoDup (released (since live ended_at_last))).
Proof.
  split; [|split].
  - split; [reflexivity|].
    apply (proj1 (end_twice page)). reflexivity.
  - split; [reflexivity|].
    apply (proj1 (proj2 (end_twice live)) acknowledged ended). reflexivity.
  - split; [reflexivity|]. split; [reflexivity|].
    destruct (proj2 (proj2 (end_twice live))
                (Rejected "Failed to fetch") (Responded acknowledged)
                end_failed ended_at_last eq_refl eq_refl) as [Hu [_ [_ Hr]]].
    split; [exact Hu|].
    apply (Hr (mkRecorder inactive [0] [])); [reflexivity|].
    repeat constructor; simpl; intuition.
Defined.

(** C1, as stated, fails: after an [end()] whose request failed, the
    session id is still set, and [end()] called again sends the request
    again. *)
Lemma end_again_after_failure :
  exists w1 w2,
    end_awaited (Rejected "Failed to fetch") live = Some w1 /\
    step CallEnd w1 = Some w2 /\
    requests (since w1 w2) = [(session_url (Some "s1") "end", NoBody)] /\
    pending w2 <> pending w1.
Proof.
  exists end_failed. eexists.
  split; [reflexivity|]. split; [reflexivity|].
  split; [reflexivity|]. discriminate.
Qed.

(** C2, on the code.  [end()] stops the tracks only after its request
    has been answered.  When the request fails, control goes to the
    [catch], which only logs: no track is stopped, the device stays
    held, and nothing is left pending that would release it.  When the
    request is answered the very same world ends with every track
    stopped.  The recorder is also the only reference to the stream: in
    a browser where building it throws, [initialize()] fails with the
    device held, and a later [end()] has nothing to stop. *)
Theorem end_failure_keeps_device :
  (end_awaited (Rejected "Failed to fetch") live = Some end_failed /\
   released (since live end_failed) = [] /\
   tracks end_failed = [true] /\
   device_held end_failed = true /\
   pending end_failed = [] /\ tasks end_failed = [] /\ timers end_failed = []) /\
  (end_awaited (Responded acknowledged) live = Some ended /\
   released (since live ended) = [0] /\
   device_held ended = false) /\
  (exists w w',
     run start_up page_without_opus = Some w /\
     mediaRecorder (this w) = None /\
     device_held w = true /\
     end_awaited (Responded acknowledged) w = Some w' /\
     device_held w' = true).
Proof.
  split; [|split].
  - repeat split; vm_compute; reflexivity.
  - repeat split; vm_compute; reflexivity.
  - do 2 eexists.
    split; [vm_compute; reflexivity|].
    split; [vm_compute; reflexivity|].
    split; [vm_compute; reflexivity|].
    split; vm_compute; reflexivity.
Qed.

(** ** Submitting input *)

(** C3, as amended.  The client keeps no record of a submission under
    way.  With a session and a text of ASCII characters that is not
    blank, [sendTextMessage] sends its request whatever is already pending,
    and changes nothing else; [reader.onloadend] sends the audio in the
    same unconditional way.  When the answer to a text submission
    arrives, it is handled on its own: its audio is played and its text
    displayed, whatever else is still pending. *)
Theorem submissions_are_not_serialised (w : World) (text : string) :
  truthy (sessionId (this w)) = true ->
  ascii_only text = true ->
  truthy (Some (trim text)) = true ->
  (exists w',
     step (CallSendTextMessage text) w = Some w' /\
     since w w' = [Fetch (session_url (sessionId (this w)) "text") (JsonText text)] /\
     pending w' = pending w ++ [PFetch KSendTextMessage] /\
     this w' = this w /\
     conversationBox w' = conversationBox w) /\
  (forall audioBlob, exists w',
     onloadend audioBlob w = (Ok tt, w') /\
     since w w' =
       [Fetch (session_url (sessionId (this w)) "audio") (JsonAudio audioBlob)] /\
     pending w' = pending w ++ [PFetch KSendAudio]) /\
  (forall i sound words,
     nth_error (pending w) i = Some (PFetch KSendTextMessage) ->
     exists w',
       step (SettleFetch i (Responded (Json (mkResponse None sound words)))) w
         = Some w' /\
       since w w' = (if truthy sound then [PlayAudio (show sound)] else []) /\
       conversationBox w' =
         (if truthy words
          then option_map (fun c => c ++ [mkElement "assistant-message" (show words)])
                          (conversationBox w)
          else conversationBox w) /\
       pending w' = remove_nth i (pending w) /\
       this w' = this w).
Proof.
  intros Hsid _ Htext.
  destruct w as [c box live opus why pend tsk tim t]. simpl in *.
  split; [|split].
  - unfold step, run_callback. js_unfold. simpl. rewrite Hsid, Htext. simpl.
    eexists. split; [reflexivity|]. simpl.
    split; [apply since_app; reflexivity|]. auto.
  - intros audioBlob. js_unfold. simpl. eexists. split; [reflexivity|]. simpl.
    split; [apply since_app; reflexivity|]. auto.
  - intros i sound words Hi. unfold step. simpl. rewrite Hi.
    unfold resume, run_callback. js_unfold. simpl.
    destruct (truthy sound), (truthy words); simpl;
      (eexists; split; [reflexivity|]); simpl;
      (split; [apply since_app; simpl; now rewrite ?app_nil_r|]);
      destruct box; simpl; auto.
Qed.

Lemma submissions_are_not_serialised_witness :
  exists w1 w2 w3,
    step (CallSendTextMessage "hello") live = Some w1 /\
    step (CallSendTextMessage "again") w1 = Some w2 /\
    pending w2 = [PFetch KSendTextMessage; PFetch KSendTextMessage] /\
    step (SettleFetch 0 (Responded (Json (mkResponse None (Some "QUJD") (Some "hi")))))
         w2 = Some w3 /\
    since w2 w3 = [PlayAudio "QUJD"] /\
    conversationBox w3 = Some [mkElement "assistant-message" "hi"] /\
    pending w3 = [PFetch KSendTextMessage].
Proof.
  destruct (proj1 (submissions_are_not_serialised live "hello"
                     eq_refl eq_refl eq_refl))
    as [w1 [E1 [_ [P1 [T1 _]]]]].
  assert (Hsid : truthy (sessionId (this w1)) = true) by (rewrite T1; reflexivity).
  destruct (proj1 (submissions_are_not_serialised w1 "again" Hsid eq_refl eq_refl))
    as [w2 [E2 [_ [P2 [T2 B2]]]]].
  assert (Hsid2 : truthy (sessionId (this w2)) = true) by (rewrite T2; exact Hsid).
  assert (Hp : pending w2 = [PFetch KSendTextMessage; PFetch KSendTextMessage])
    by (rewrite P2, P1; reflexivity).
  assert (Hn : nth_error (pending w2) 0 = Some (PFetch KSendTextMessage))
    by (rewrite Hp; reflexivity).
  destruct (proj2 (proj2 (submissions_are_not_serialised w2 "x" Hsid2
                            eq_refl eq_refl))
              0 (Some "QUJD") (Some "hi") Hn)
    as [w3 [E3 [S3 [B3 [P3 _]]]]].
  exists w1, w2, w3.
  repeat split; auto.
  - rewrite B3. simpl. rewrite B2.
    injection E1 as <-. reflexivity.
  - rewrite P3, Hp. reflexivity.
Defined.

(** C3, as stated, fails: a second text submitted while the first is
    still unanswered is sent as a second request, and both are then
    pending; nothing is refused and no error is shown. *)
Lemma second_submission_is_sent :
  exists w',
    run [CallSendTextMessage "hello"; CallSendTextMessage "again"] live = Some w' /\
    requests (since live w') =
      [(session_url (Some "s1") "text", JsonText "hello");
       (session_url (Some "s1") "text", JsonText "again")] /\
    pending w' = [PFetch KSendTextMessage; PFetch KSendTextMessage] /\
    uncaught (since live w') = [] /\
    conversationBox w' = conversationBox live.
Proof.
  eexists. split; [vm_compute; reflexivity|].
  repeat split; vm_compute; reflexivity.
Qed.

(** ** Reconnecting *)

Lemma run_cons (a : Action) (rest : list Action) (w : World) :
  run (a :: rest) w =
  match step a w with
  | Some w' => run rest w'
  | None => None
  end.
Proof. reflexivity. Qed.

(** One lost connection and the wait that follows it. *)
Lemma loss_cycle (w : World) (es : EventSource) :
  truthy (sessionId (this w)) = true ->
  eventSource (this w) = Some es ->
  readyState es <> CLOSED ->
  timers w = [] ->
  exists w',
    run [SseError CLOSED; Elapse 3000] w = Some w' /\
    trace w' = trace w ++ loss_effects (sessionId (this w)) /\
    this w' =
      set_eventSource
        (Some (mkEventSource (session_url (sessionId (this w)) "stream") CONNECTING))
        (this w) /\
    conversationBox w' = conversationBox w /\
    timers w' = [].
Proof.
  intros Hsid Hes Hrs Htim.
  destruct w as [[sid e act rec chunks] box live opus why pend tsk tim t].
  simpl in *. subst e tim.
  destruct (truthy_inv _ Hsid) as [a [s ->]].
  destruct es as [u []]; simpl in Hrs; try congruence;
    (eexists; split; [reflexivity|]); simpl;
    unfold loss_effects; rewrite <- !app_assoc; auto.
Qed.

Lemma losses_run (n : nat) :
  forall (w : World) (es : EventSource),
    truthy (sessionId (this w)) = true ->
    eventSource (this w) = Some es ->
    readyState es <> CLOSED ->
    timers w = [] ->
    exists w',
      run (losses n) w = Some w' /\
      trace w' = trace w ++ concat (repeat (loss_effects (sessionId (this w))) n) /\
      sessionId (this w') = sessionId (this w) /\
      isActive (this w') = isActive (this w) /\
      conversationBox w' = conversationBox w /\
      timers w' = [].
Proof.
  induction n as [|n IH]; intros w es Hsid Hes Hrs Htim.
  - exists w. simpl. rewrite app_nil_r. repeat split; auto.
  - destruct (loss_cycle w es Hsid Hes Hrs Htim) as [w1 [E1 [T1 [C1 [B1 M1]]]]].
    assert (Hsid1 : sessionId (this w1) = sessionId (this w)) by (rewrite C1; reflexivity).
    destruct (IH w1 (mkEventSource (session_url (sessionId (this w)) "stream") CONNECTING))
      as [w' [E [T [S [A [B M]]]]]].
    + now rewrite Hsid1.
    + rewrite C1. reflexivity.
    + discriminate.
    + exact M1.
    + exists w'. split.
      * simpl losses. rewrite run_cons.
        rewrite run_cons in E1. destruct (step (SseError CLOSED) w) as [w0|]; [|discriminate].
        rewrite run_cons. rewrite run_cons in E1.
        destruct (step (Elapse 3000) w0) as [w2|]; [|discriminate].
        simpl in E1. injection E1 as ->. exact E.
      * rewrite T, T1, Hsid1. simpl. rewrite <- app_assoc.
        repeat split; try congruence.
        rewrite A, C1. reflexivity.
Qed.

Lemma retry_delays_losses (sid : option string) (n : nat) :
  retry_delays (concat (repeat (loss_effects sid) n)) = repeat 3000%N n.
Proof. induction n as [|n IH]; simpl; auto. now rewrite IH. Qed.

Lemma streams_opened_losses (sid : option string) (n : nat) :
  streams_opened (concat (repeat (loss_effects sid) n)) =
  repeat (session_url sid "stream") n.
Proof. induction n as [|n IH]; simpl; auto. now rewrite IH. Qed.

Lemma uncaught_losses (sid : option string) (n : nat) :
  uncaught (concat (repeat (loss_effects sid) n)) = [].
Proof. induction n as [|n IH]; simpl; auto. Qed.

(** C4, as amended.  Every loss of the connection that the browser
    reports with the stream closed makes the client wait 3000 ms and
    open the stream of the same session again.  The delay is the same
    every time, the attempts are not counted and there is no last one:
    after any number [n] of losses in a row the client has made [n]
    attempts, is as active as before and has shown no error. *)
Theorem reconnect_is_fixed_and_unbounded (w : World) (es : EventSource) (n : nat) :
  truthy (sessionId (this w)) = true ->
  eventSource (this w) = Some es ->
  readyState es <> CLOSED ->
  timers w = [] ->
  exists w',
    run (losses n) w = Some w' /\
    retry_delays (since w w') = repeat 3000%N n /\
    streams_opened (since w w') = repeat (session_url (sessionId (this w)) "stream") n /\
    uncaught (since w w') = [] /\
    sessionId (this w') = sessionId (this w) /\
    isActive (this w') = isActive (this w) /\
    conversationBox w' = conversationBox w.
Proof.
  intros Hsid Hes Hrs Htim.
  destruct (losses_run n w es Hsid Hes Hrs Htim) as [w' [E [T [S [A [B _]]]]]].
  exists w'. rewrite (since_app _ _ _ T).
  rewrite retry_delays_losses, streams_opened_losses, uncaught_losses.
  repeat split; auto.
Qed.

Lemma reconnect_is_fixed_and_unbounded_witness :
  exists w',
    run (losses 3) live = Some w' /\
    retry_delays (since live w') = [3000; 3000; 3000]%N /\
    streams_opened (since live w') =
      [session_url (Some "s1") "stream"; session_url (Some "s1") "stream";
       session_url (Some "s1") "stream"] /\
    uncaught (since live w') = [] /\
    sessionId (this w') = Some "s1" /\
    isActive (this w') = true /\
    conversationBox w' = Some [].
Proof.
  apply (reconnect_is_fixed_and_unbounded live
           (mkEventSource (session_url (Some "s1") "stream") OPEN) 3).
  - reflexivity.
  - reflexivity.
  - discriminate.
  - reflexivity.
Defined.

(** C4, as stated, fails: the delays do not grow, and no budget bounds
    the attempts: whatever the budget, one more loss gets one more
    attempt. *)
Lemma reconnect_has_no_budget :
  (exists w',
     run (losses 3) live = Some w' /\
     retry_delays (since live w') = [3000; 3000; 3000]%N) /\
  ~ (exists budget : nat, forall n w',
       run (losses n) live = Some w' ->
       length (streams_opened (since live w')) <= budget).
Proof.
  split.
  - eexists. split; vm_compute; reflexivity.
  - intros [budget H].
    destruct (losses_run (S budget) live
                (mkEventSource (session_url (Some "s1") "stream") OPEN))
      as [w' [E [T _]]]; try reflexivity; try discriminate.
    specialize (H _ _ E).
    rewrite (since_app _ _ _ T), streams_opened_losses, repeat_length in H.
    lia.
Qed.

(** ** Detecting a lost connection *)

(** *** Which code registers a timer *)

Section Quiet.

Context {A B : Type}.

Lemma quiet_ret (a : A) : quiet (ret a).
Proof. intros w. reflexivity. Qed.

Lemma quiet_throw (e : string) : quiet (@throw A e).
Proof. intros w. reflexivity. Qed.

Lemma quiet_bind (m : M A) (k : A -> M B) :
  quiet m -> (forall a, quiet (k a)) -> quiet (bind m k).
Proof.
  intros Hm Hk w. unfold bind. specialize (Hm w).
  destruct (m w) as [[a|e] w1]; simpl in *; [|exact Hm].
  rewrite <- Hm. apply Hk.
Qed.

Lemma quiet_try_catch (body : M A) (handler : string -> M A) :
  quiet body -> (forall e, quiet (handler e)) -> quiet (try_catch body handler).
Proof.
  intros Hb Hh w. unfold try_catch. specialize (Hb w).
  destruct (body w) as [[a|e] w1]; simpl in *; [exact Hb|].
  rewrite <- Hb. apply Hh.
Qed.

Lemma quiet_run_callback (m : M A) : quiet m -> quiet_change (run_callback m).
Proof.
  intros Hm w. unfold run_callback. specialize (Hm w).
  destruct (m w) as [[a|e] w1]; simpl in *; [exact Hm|].
  rewrite retry_delays_app, Hm. simpl. apply app_nil_r.
Qed.

End Quiet.

Lemma quiet_get : quiet get.
Proof. intros w. reflexivity. Qed.

Lemma quiet_modify (f : World -> World) :
  (forall w, trace (f w) = trace w) -> quiet (modify f).
Proof. intros H w. simpl. now rewrite H. Qed.

Lemma quiet_emit (e : Effect) : retry_delays [e] = [] -> quiet (emit e).
Proof.
  intros H w. simpl. rewrite retry_delays_app, H. apply app_nil_r.
Qed.

Lemma quiet_forEach {X : Type} (f : X -> M unit) (l : list X) :
  (forall x, quiet (f x)) -> quiet (forEach f l).
Proof.
  intros H. induction l as [|x l IH]; simpl.
  - apply quiet_ret.
  - apply quiet_bind; auto.
Qed.

Ltac quiet_step :=
  first
    [ apply quiet_ret
    | apply quiet_throw
    | apply quiet_get
    | apply quiet_emit; reflexivity
    | apply quiet_modify; intros []; reflexivity
    | apply quiet_forEach; intros ?
    | apply quiet_bind; [|intros ?]
    | apply quiet_try_catch; [|intros ?]
    | match goal with
      | |- quiet (if ?b then _ else _) => destruct b
      | |- quiet (match ?x with _ => _ end) => destruct x
      end ].

Ltac quiet_all :=
  unfold sendTextMessage_catch, initialize_catch, end_catch, present,
    response_of, json_of, showError, displayResponse, displayUserMessage,
    playAudio, track_stop;
  unfold appendChild, await_fetch, queue_tasks, assign, when;
  repeat quiet_step.

Lemma quiet_startRecording : quiet startRecording.
Proof. unfold startRecording, MediaRecorder_start. quiet_all. Qed.

Lemma quiet_stopRecording : quiet stopRecording.
Proof. unfold stopRecording, MediaRecorder_stop. quiet_all. Qed.

Lemma quiet_sendTextMessage (text : string) : quiet (sendTextMessage text).
Proof. unfold sendTextMessage. quiet_all. Qed.

Lemma quiet_sendTextMessage_resume (o : FetchOutcome) : quiet (sendTextMessage_resume o).
Proof. unfold sendTextMessage_resume. quiet_all. Qed.

Lemma quiet_sendAudioToServer (b : Blob) : quiet (sendAudioToServer b).
Proof. unfold sendAudioToServer. quiet_all. Qed.

Lemma quiet_onloadend (b : Blob) : quiet (onloadend b).
Proof. unfold onloadend. quiet_all. Qed.

Lemma quiet_onloadend_resume (o : FetchOutcome) : quiet (onloadend_resume o).
Proof. unfold onloadend_resume. quiet_all. Qed.

Lemma quiet_ondataavailable (b : Blob) : quiet (ondataavailable b).
Proof. unfold ondataavailable. quiet_all. Qed.

Lemma quiet_onstop : quiet onstop.
Proof. unfold onstop. quiet_all. Qed.

Lemma quiet_setupEventStream : quiet setupEventStream.
Proof. unfold setupEventStream. quiet_all. Qed.

Lemma quiet_onmessage (d : option ServerData) : quiet (onmessage d).
Proof. unfold onmessage, handleServerMessage. quiet_all. Qed.

Lemma quiet_initialize : quiet initialize.
Proof. unfold initialize. quiet_all. Qed.

Lemma quiet_initialize_resume (o : FetchOutcome) : quiet (initialize_resume o).
Proof.
  unfold initialize_resume, setupAudioCapture. quiet_all.
Qed.

Lemma quiet_initialize_finish (o : MediaOutcome) : quiet (initialize_finish o).
Proof. unfold initialize_finish, setupAudioCapture_resume. quiet_all. Qed.

Lemma quiet_end : quiet end_.
Proof. unfold end_. quiet_all. Qed.

Lemma quiet_end_resume (o : FetchOutcome) : quiet (end_resume o).
Proof. unfold end_resume. quiet_all. Qed.

Lemma quiet_fire (n : nat) : quiet_change (fire n).
Proof.
  induction n as [|n IH]; intros w; simpl; auto.
  rewrite IH. apply quiet_run_callback, quiet_setupEventStream.
Qed.

Lemma elapse_idle (ms : N) (w : World) : timers w = [] -> step (Elapse ms) w = Some w.
Proof.
  intros H. destruct w as [c box live opus why pend tsk tim t]. simpl in H. subst tim.
  reflexivity.
Qed.

(** Every action but the error event of a closed stream leaves the
    timers that were ever registered as they were. *)
Lemma only_closed_stream_schedules (a : Action) (w w' : World) :
  step a w = Some w' ->
  a <> SseError CLOSED ->
  retry_delays (trace w') = retry_delays (trace w).
Proof.
  intros Hstep Ha.
  destruct a; simpl in Hstep.
  - injection Hstep as <-. apply quiet_run_callback, quiet_initialize.
  - injection Hstep as <-. apply quiet_run_callback, quiet_sendTextMessage.
  - injection Hstep as <-. apply quiet_run_callback, quiet_startRecording.
  - injection Hstep as <-. apply quiet_run_callback, quiet_stopRecording.
  - injection Hstep as <-. apply quiet_run_callback, quiet_end.
  - destruct (nth_error (pending w) i) as [[k|]|]; try discriminate.
    injection Hstep as <-.
    destruct k; unfold resume; rewrite quiet_run_callback;
      auto using quiet_initialize_resume, quiet_sendTextMessage_resume,
                 quiet_onloadend_resume, quiet_end_resume.
  - destruct (nth_error (pending w) i) as [[k|]|]; try discriminate.
    injection Hstep as <-.
    rewrite quiet_run_callback; auto using quiet_initialize_finish.
  - destruct (tasks w) as [|[] rest]; try discriminate;
      injection Hstep as <-; unfold deliver; rewrite quiet_run_callback;
      auto using quiet_ondataavailable, quiet_onstop, quiet_onloadend.
  - destruct (recorder_in recording (this w)); try discriminate.
    injection Hstep as <-. reflexivity.
  - destruct (stream_is CONNECTING (this w)); try discriminate.
    injection Hstep as <-. reflexivity.
  - destruct (stream_is OPEN (this w)); try discriminate.
    injection Hstep as <-. apply quiet_run_callback, quiet_onmessage.
  - destruct rs; try congruence.
    + destruct w as [[sid [[u []]|] act rec chunks] box live opus why pend tsk tim t];
        crunch; try discriminate;
        injection Hstep as <-; simpl; now rewrite retry_delays_app, app_nil_r.
    + rewrite andb_false_r in Hstep. discriminate.
  - injection Hstep as <-. unfold elapse. rewrite quiet_fire. reflexivity.
Qed.

(** C5, as amended.  Time that passes while no timer is pending changes
    nothing, however long it is.  A heartbeat is logged and nothing
    else.  A reconnection is scheduled by the error event of a stream
    that the browser has closed, and by no other call or event. *)
Theorem loss_is_an_error_event (w : World) :
  (forall ms, timers w = [] -> step (Elapse ms) w = Some w) /\
  (stream_is OPEN (this w) = true ->
   step (SseMessage (Some heartbeat_event)) w =
   Some (with_trace (fun t => t ++ [ConsoleLog "Heartbeat received"]) w)) /\
  (forall a w',
     step a w = Some w' ->
     retry_delays (trace w') <> retry_delays (trace w) ->
     a = SseError CLOSED) /\
  (forall w',
     step (SseError CLOSED) w = Some w' ->
     retry_delays (since w w') = [3000%N] /\ timers w' = timers w ++ [3000%N]).
Proof.
  split; [|split; [|split]].
  - intros ms. apply elapse_idle.
  - intros H. simpl. rewrite H. destruct w; reflexivity.
  - intros a w' Hstep Hne.
    destruct a; try (exfalso; apply Hne;
                     apply (only_closed_stream_schedules _ _ _ Hstep); discriminate).
    destruct rs; try reflexivity;
      exfalso; apply Hne;
      apply (only_closed_stream_schedules _ _ _ Hstep); discriminate.
  - intros w' Hstep.
    destruct w as [[sid [[u []]|] act rec chunks] box live opus why pend tsk tim t];
      crunch; try discriminate;
      injection Hstep as <-; simpl; (split; [|reflexivity]);
      unfold since; simpl; rewrite <- !app_assoc, skipn_length_app; reflexivity.
Qed.

Lemma loss_is_an_error_event_witness :
  step (Elapse 30001) live = Some live /\
  step (SseMessage (Some heartbeat_event)) live =
    Some (with_trace (fun t => t ++ [ConsoleLog "Heartbeat received"]) live) /\
  (forall w', step (SseError CONNECTING) live = Some w' ->
              retry_delays (trace w') = retry_delays (trace live)) /\
  exists w',
    step (SseError CLOSED) live = Some w' /\
    retry_delays (trace w') <> retry_delays (trace live) /\
    SseError CLOSED = SseError CLOSED /\
    retry_delays (since live w') = [3000%N] /\ timers w' = [3000%N].
Proof.
  destruct (loss_is_an_error_event live) as [H1 [H2 [H3 H4]]].
  split; [apply H1; reflexivity|].
  split; [apply H2; reflexivity|].
  split.
  - intros w' Hstep.
    destruct (list_eq_dec N.eq_dec (retry_delays (trace w')) (retry_delays (trace live)))
      as [E|Hne]; [exact E|].
    specialize (H3 _ _ Hstep Hne). discriminate.
  - eexists. split; [reflexivity|].
    assert (Hne : retry_delays (trace (run_callback onerror
                      (with_this (set_readyState CLOSED) live)))
                  <> retry_delays (trace live)) by discriminate.
    split; [exact Hne|].
    split; [exact (H3 (SseError CLOSED) _ eq_refl Hne)|].
    apply H4. reflexivity.
Defined.

(** C5, as stated, fails: whatever the heartbeat interval, a stream that
    sends one heartbeat and then stays silent for more than three
    intervals leaves the client as it was, with no reconnection
    scheduled. *)
Lemma silence_is_not_loss :
  ~ (exists (interval : N) (w' : World),
       run [SseMessage (Some heartbeat_event); Elapse (3 * interval + 1)] live
         = Some w' /\
       (retry_delays (since live w') <> [] \/ this w' <> this live)).
Proof.
  intros [interval [w' [Hrun H]]].
  rewrite run_cons in Hrun.
  destruct (step (SseMessage (Some heartbeat_event)) live) as [w1|] eqn:E1;
    [|discriminate].
  vm_compute in E1. injection E1 as <-.
  rewrite run_cons, elapse_idle in Hrun by reflexivity.
  injection Hrun as <-.
  destruct H as [H|H]; apply H; reflexivity.
Qed.

(** ** Utterances *)


Lemma recorder_in_inv (s : RecordingState) (c : Client) :
  recorder_in s c = true ->
  exists strm g, mediaRecorder c = Some (mkRecorder s strm g).
Proof.
  unfold recorder_in. destruct (mediaRecorder c) as [[st strm g]|]; [|discriminate].
  destruct st, s; simpl; try discriminate; eauto.
Qed.








(** ** Push events *)

(** C7, as amended.  On an assistant Message the client displays the
    content and, when the Message carries audio, starts playing it.
    Nothing else happens: no field of the client changes, nothing is
    left pending or scheduled, so there is no responding state to enter
    and no event at the end of playback to leave it.  A heartbeat is
    logged and changes nothing either. *)
Theorem assistant_message_is_shown_and_played
  (w : World) (text : string) (sound : option string) :
  stream_is OPEN (this w) = true ->
  (exists w',
     step (SseMessage (Some (assistant_event text sound))) w = Some w' /\
     conversationBox w' =
       option_map (fun c => c ++ [mkElement "assistant-message" text])
                  (conversationBox w) /\
     since w w' = (if truthy sound then [PlayAudio (show sound)] else []) /\
     this w' = this w /\
     pending w' = pending w /\ tasks w' = tasks w /\ timers w' = timers w) /\
  (exists w',
     step (SseMessage (Some heartbeat_event)) w = Some w' /\
     since w w' = [ConsoleLog "Heartbeat received"] /\
     conversationBox w' = conversationBox w /\
     this w' = this w /\
     pending w' = pending w /\ tasks w' = tasks w /\ timers w' = timers w).
Proof.
  intros Hopen.
  destruct w as [c box live opus why pend tsk tim t]. simpl in *.
  rewrite Hopen. split.
  - unfold run_callback. js_unfold. simpl.
    destruct (truthy sound); simpl;
      (eexists; split; [reflexivity|]); simpl;
      (split; [destruct box; reflexivity|]);
      (split; [apply since_app; simpl; now rewrite ?app_nil_r|]); auto 10.
  - eexists. split; [reflexivity|]. simpl.
    split; [apply since_app; reflexivity|]. auto 10.
Qed.

Lemma assistant_message_is_shown_and_played_witness :
  (exists w',
     step (SseMessage (Some (assistant_event "hi" (Some "QUJD")))) live = Some w' /\
     conversationBox w' = Some [mkElement "assistant-message" "hi"] /\
     since live w' = [PlayAudio "QUJD"] /\
     this w' = this live /\
     pending w' = [] /\ tasks w' = [] /\ timers w' = []) /\
  (exists w',
     step (SseMessage (Some heartbeat_event)) live = Some w' /\
     since live w' = [ConsoleLog "Heartbeat received"] /\
     conversationBox w' = Some [] /\
     this w' = this live /\
     pending w' = [] /\ tasks w' = [] /\ timers w' = []).
Proof.
  apply (assistant_message_is_shown_and_played live "hi" (Some "QUJD")).
  reflexivity.
Defined.

(** C7, as stated, fails: the client is the same object, field by
    field, before and after an assistant Message, so no state read off
    the client can have become the responding state. *)
Lemma assistant_message_changes_no_state :
  ~ (exists (phase : Client -> ConversationState) (w' : World),
       step (SseMessage (Some (assistant_event "hi" (Some "QUJD")))) live = Some w' /\
       phase (this live) <> AiResponding /\
       phase (this w') = AiResponding).
Proof.
  intros [phase [w' [Hstep [Hbefore Hafter]]]].
  vm_compute in Hstep. injection Hstep as <-.
  apply Hbefore. exact Hafter.
Qed.

(** ** Sequence numbers *)

Lemma Forall_replace (P : SessionManager.Session -> Prop) (id : nat)
  (s : SessionManager.Session) (l : list (nat * SessionManager.Session)) :
  P s ->
  Forall (fun p => P (snd p)) l ->
  Forall (fun p => P (snd p)) (SessionManager.replace id s l).
Proof.
  intros Hs Hl. induction Hl as [|[id' s'] rest Hp Hrest IH]; simpl.
  - constructor.
  - destruct (id =? id')%nat; constructor; auto.
Qed.

Lemma Forall_remove (P : SessionManager.Session -> Prop) (id : nat)
  (l : list (nat * SessionManager.Session)) :
  Forall (fun p => P (snd p)) l ->
  Forall (fun p => P (snd p)) (SessionManager.remove id l).
Proof.
  intros Hl. induction Hl as [|[id' s'] rest Hp Hrest IH]; simpl.
  - constructor.
  - destruct (id =? id')%nat; auto.
Qed.

Lemma Forall_lookup (P : SessionManager.Session -> Prop) (id : nat)
  (s : SessionManager.Session) (l : list (nat * SessionManager.Session)) :
  Forall (fun p => P (snd p)) l ->
  SessionManager.lookup id l = Some s ->
  P s.
Proof.
  intros Hl. induction Hl as [|[id' s'] rest Hp Hrest IH]; simpl.
  - discriminate.
  - destruct (id =? id')%nat; auto. intros H. injection H as <-. exact Hp.
Qed.

Lemma well_numbered_append (s : SessionManager.Session) (reply : Message) (b : bool) :
  SessionManager.well_numbered s ->
  SessionManager.well_numbered
    {| SessionManager.log :=
         SessionManager.log s
           ++ [SessionManager.mkEntry reply (SessionManager.next_sequence s)];
       SessionManager.next_sequence := S (SessionManager.next_sequence s);
       SessionManager.turn_active := b |}.
Proof.
  intros [Hlog Hnext]. unfold SessionManager.well_numbered. simpl.
  rewrite map_app, length_app, Hlog, Hnext. simpl.
  rewrite Nat.add_1_r, seq_S. auto.
Qed.

Lemma handle_well_numbered (m : SessionManager.Manager) (r : SessionManager.Request) :
  Forall (fun p => SessionManager.well_numbered (snd p)) (SessionManager.sessions m) ->
  Forall (fun p => SessionManager.well_numbered (snd p))
         (SessionManager.sessions (SessionManager.handle m r)).
Proof.
  intros Hm. destruct r as [|id|id reply|id|id]; simpl.
  - constructor; [|exact Hm]. split; reflexivity.
  - unfold SessionManager.submit.
    destruct (SessionManager.lookup id (SessionManager.sessions m)) as [s|] eqn:Hs;
      [|exact Hm].
    destruct (SessionManager.turn_active s); [exact Hm|]. simpl.
    apply Forall_replace; [|exact Hm].
    apply (Forall_lookup _ _ _ _ Hm Hs).
  - unfold SessionManager.complete.
    destruct (SessionManager.lookup id (SessionManager.sessions m)) as [s|] eqn:Hs;
      [|exact Hm].
    destruct (SessionManager.turn_active s); [|exact Hm]. simpl.
    apply Forall_replace; [|exact Hm].
    apply well_numbered_append, (Forall_lookup _ _ _ _ Hm Hs).
  - apply Forall_remove, Hm.
  - apply Forall_remove, Hm.
Qed.

Lemma serve_well_numbered (requests : list SessionManager.Request) :
  forall m : SessionManager.Manager,
    Forall (fun p => SessionManager.well_numbered (snd p)) (SessionManager.sessions m) ->
    Forall (fun p => SessionManager.well_numbered (snd p))
           (SessionManager.sessions (SessionManager.serve requests m)).
Proof.
  induction requests as [|r requests IH]; intros m Hm; simpl; auto.
  apply IH, handle_well_numbered, Hm.
Qed.

(** C8.  In every session of every state the manager can reach, the
    sequence numbers of the log are 1, 2, ..., n in this order: they
    are gapless, strictly increasing, and none occurs twice. *)
Theorem sequence_numbers_are_gapless
  (requests : list SessionManager.Request) (id : nat) (s : SessionManager.Session) :
  SessionManager.lookup id
    (SessionManager.sessions (SessionManager.serve requests SessionManager.start))
    = Some s ->
  let numbers := map SessionManager.sequence (SessionManager.log s) in
  numbers = seq 1 (length numbers) /\
  NoDup numbers /\
  (forall i j, i < j -> j < length numbers -> nth i numbers 0 < nth j numbers 0).
Proof.
  intros Hs numbers.
  assert (Hn : numbers = seq 1 (length numbers)).
  { unfold numbers. rewrite length_map.
    apply (Forall_lookup SessionManager.well_numbered _ _ _
             (serve_well_numbered requests SessionManager.start (Forall_nil _)) Hs). }
  split; [exact Hn|]. split.
  - rewrite Hn. apply seq_NoDup.
  - intros i j Hij Hj. rewrite Hn, !seq_nth by lia. lia.
Qed.

Lemma sequence_numbers_are_gapless_witness :
  exists s,
    SessionManager.lookup 0
      (SessionManager.sessions
         (SessionManager.serve
            [SessionManager.Create;
             SessionManager.Submit 0;
             SessionManager.Submit 0;
             SessionManager.Complete 0 (mkMessage "assistant" "hello" None);
             SessionManager.Submit 0;
             SessionManager.Complete 0 (mkMessage "assistant" "again" None)]
            SessionManager.start)) = Some s /\
    map SessionManager.sequence (SessionManager.log s) = [1; 2] /\
    NoDup (map SessionManager.sequence (SessionManager.log s)).
Proof.
  eexists. split; [reflexivity|].
  split; [reflexivity|].
  apply (sequence_numbers_are_gapless
           [SessionManager.Create;
            SessionManager.Submit 0;
            SessionManager.Submit 0;
            SessionManager.Complete 0 (mkMessage "assistant" "hello" None);
            SessionManager.Submit 0;
            SessionManager.Complete 0 (mkMessage "assistant" "again" None)]
           0 _ eq_refl).
Defined.

(** ** Setting up *)

(** X1.  When the server answers the create request with a session id
    and the microphone is granted in a browser that can build the
    recorder, [initialize()] leaves the client active, with that
    session id, an event stream connecting to the stream of that
    session, and an inactive recorder on the fresh tracks, all live;
    nothing is left pending and only the create request was sent. *)
Theorem initialize_sets_up (w : World) (d : ResponseData) (n : nat) :
  truthy (session_id d) = true ->
  opusSupported w = true ->
  exists w',
    initialize_awaited (Responded (Json d)) (Granted n) w = Some w' /\
    sessionId (this w') = session_id d /\
    isActive (this w') = true /\
    eventSource (this w') =
      Some (mkEventSource (session_url (session_id d) "stream") CONNECTING) /\
    mediaRecorder (this w') =
      Some (mkRecorder inactive (seq (length (tracks w)) n) []) /\
    tracks w' = tracks w ++ repeat true n /\
    pending w' = pending w /\
    requests (since w w') = [((baseUrl ++ "/session/create")%string, NoBody)] /\
    uncaught (since w w') = [].
Proof.
  intros Hsid Hopus.
  destruct w as [[sid es act rec chunks] box live opus why pend tsk tim t].
  destruct d as [id a x]. cbn in Hsid, Hopus. subst opus.
  destruct (truthy_inv _ Hsid) as [c [s ->]].
  unfold initialize_awaited.
  evaluate.
  eexists. split; [reflexivity|]. cbn.
  repeat split; observe; reflexivity.
Qed.

Lemma initialize_sets_up_witness :
  exists w',
    initialize_awaited (Responded (Json (mkResponse (Some "s1") None None)))
                       (Granted 2) page = Some w' /\
    sessionId (this w') = Some "s1" /\
    isActive (this w') = true /\
    eventSource (this w') =
      Some (mkEventSource (session_url (Some "s1") "stream") CONNECTING) /\
    mediaRecorder (this w') = Some (mkRecorder inactive [0; 1] []) /\
    tracks w' = [true; true] /\
    pending w' = [] /\
    requests (since page w') = [((baseUrl ++ "/session/create")%string, NoBody)] /\
    uncaught (since page w') = [].
Proof.
  apply (initialize_sets_up page (mkResponse (Some "s1") None None) 2);
    reflexivity.
Defined.

(** X2.  When the create request fails, or its answer is not JSON,
    [initialize()] shows the error in the conversation box and stops
    there: no field of the client changes, the microphone is not asked
    for, no stream is opened and nothing is left pending. *)
Theorem initialize_failure_is_shown (w : World) (o : FetchOutcome) (e : string) :
  failure_of o = Some e ->
  exists w',
    initialize_refused o w = Some w' /\
    this w' = this w /\
    pending w' = pending w /\
    tracks w' = tracks w /\
    conversationBox w' = appended (error_element e) (conversationBox w) /\
    since w w' =
      [ConsoleLog "Initializing Server-Side Live Voice Client...";
       Fetch (baseUrl ++ "/session/create")%string NoBody;
       ConsoleError "Failed to initialize Live Voice Client:";
       ConsoleError ("Live Voice Error: " ++ e)%string].
Proof.
  intros Ho.
  destruct w as [c box live opus why pend tsk tim t].
  unfold initialize_refused.
  destruct o as [m|[m|d]]; cbn in Ho; try discriminate; injection Ho as <-;
    evaluate;
    (eexists; split; [reflexivity|]); cbn;
    (repeat split; try reflexivity; try (destruct box; reflexivity));
    observe; reflexivity.
Qed.

Lemma initialize_failure_is_shown_witness :
  exists w',
    initialize_refused (Rejected "Failed to fetch") page = Some w' /\
    this w' = constructor /\
    pending w' = [] /\
    tracks w' = [] /\
    conversationBox w' = Some [error_element "Failed to fetch"] /\
    since page w' =
      [ConsoleLog "Initializing Server-Side Live Voice Client...";
       Fetch (baseUrl ++ "/session/create")%string NoBody;
       ConsoleError "Failed to initialize Live Voice Client:";
       ConsoleError "Live Voice Error: Failed to fetch"].
Proof.
  apply (initialize_failure_is_shown page (Rejected "Failed to fetch") "Failed to fetch").
  reflexivity.
Defined.

(** X3.  When the microphone is refused after the session was created,
    [initialize()] shows the error and does not make the client
    active, but the session stays: the client keeps the session id,
    the event stream it opened stays open, and no request to end the
    session is sent. *)
Theorem refused_microphone_keeps_session (w : World) (d : ResponseData) (e : string) :
  truthy (session_id d) = true ->
  exists w',
    initialize_awaited (Responded (Json d)) (Denied e) w = Some w' /\
    sessionId (this w') = session_id d /\
    eventSource (this w') =
      Some (mkEventSource (session_url (session_id d) "stream") CONNECTING) /\
    isActive (this w') = isActive (this w) /\
    mediaRecorder (this w') = mediaRecorder (this w) /\
    tracks w' = tracks w /\
    conversationBox w' = appended (error_element e) (conversationBox w) /\
    requests (since w w') = [((baseUrl ++ "/session/create")%string, NoBody)] /\
    filter is_close (since w w') = [].
Proof.
  intros Hsid.
  destruct w as [[sid es act rec chunks] box live opus why pend tsk tim t].
  destruct d as [id a x]. cbn in Hsid.
  destruct (truthy_inv _ Hsid) as [c [s ->]].
  unfold initialize_awaited. evaluate.
  eexists. split; [reflexivity|]. cbn.
  repeat split; try (destruct box; reflexivity); observe; reflexivity.
Qed.

Lemma refused_microphone_keeps_session_witness :
  exists w',
    initialize_awaited (Responded (Json (mkResponse (Some "s1") None None)))
                       (Denied "Permission denied") page = Some w' /\
    sessionId (this w') = Some "s1" /\
    eventSource (this w') =
      Some (mkEventSource (session_url (Some "s1") "stream") CONNECTING) /\
    isActive (this w') = false /\
    mediaRecorder (this w') = None /\
    tracks w' = [] /\
    conversationBox w' = Some [error_element "Permission denied"] /\
    requests (since page w') = [((baseUrl ++ "/session/create")%string, NoBody)] /\
    filter is_close (since page w') = [].
Proof.
  apply (refused_microphone_keeps_session page (mkResponse (Some "s1") None None)
           "Permission denied").
  reflexivity.
Defined.

Lemma existsb_live_app (t : list bool) (n : nat) :
  0 < n -> existsb (fun live => live) (t ++ repeat true n) = true.
Proof.
  intros Hn. rewrite existsb_app. destruct n; [lia|]. simpl.
  apply orb_true_r.
Qed.

(** X4.  In a browser that cannot build the recorder, the tracks that
    [getUserMedia] granted stay live and the client keeps no reference
    to them: the recorder field is as before, no track is stopped, the
    client is not made active and the message of the error that the
    constructor threw is shown.  With at least one track granted the
    device is therefore held. *)
Theorem unsupported_recorder_strands_tracks (w : World) (d : ResponseData) (n : nat) :
  opusSupported w = false ->
  exists w',
    initialize_awaited (Responded (Json d)) (Granted n) w = Some w' /\
    tracks w' = tracks w ++ repeat true n /\
    mediaRecorder (this w') = mediaRecorder (this w) /\
    isActive (this w') = isActive (this w) /\
    filter is_track_stop (since w w') = [] /\
    conversationBox w' =
      appended (error_element (recorderError w)) (conversationBox w) /\
    (0 < n -> device_held w' = true).
Proof.
  intros Hopus.
  destruct w as [[sid es act rec chunks] box live opus why pend tsk tim t].
  destruct d as [[[|c s]|] a x]; cbn in Hopus; subst opus;
    unfold initialize_awaited; evaluate;
    (eexists; split; [reflexivity|]); cbn;
    (repeat split; try (destruct box; reflexivity);
     try (observe; reflexivity));
    intros Hn; unfold device_held; cbn; now apply existsb_live_app.
Qed.

Lemma unsupported_recorder_strands_tracks_witness :
  exists w',
    initialize_awaited (Responded (Json (mkResponse (Some "s1") None None)))
                       (Granted 1) page_without_opus = Some w' /\
    tracks w' = [true] /\
    mediaRecorder (this w') = None /\
    isActive (this w') = false /\
    filter is_track_stop (since page_without_opus w') = [] /\
    conversationBox w' = Some [error_element unsupported] /\
    device_held w' = true.
Proof.
  destruct (unsupported_recorder_strands_tracks page_without_opus
              (mkResponse (Some "s1") None None) 1 eq_refl)
    as [w' [E [T [R [A [S [B D]]]]]]].
  exists w'. repeat split; auto.
Defined.



(** ** Sending text and audio *)

Lemma trimStart_empty (s : string) :
  trimStart s = EmptyString <-> all_white_space s = true.
Proof.
  induction s as [|a s IH]; simpl.
  - tauto.
  - destruct (is_white_space a); simpl; [exact IH|].
    split; discriminate.
Qed.

Lemma all_white_space_reverse_onto (s acc : string) :
  all_white_space (reverse_onto s acc) = all_white_space s && all_white_space acc.
Proof.
  revert acc. induction s as [|a s IH]; intros acc; simpl; auto.
  rewrite IH. simpl. destruct (is_white_space a), (all_white_space s); auto.
Qed.

Lemma reverse_onto_empty (s acc : string) :
  reverse_onto s acc = EmptyString -> s = EmptyString /\ acc = EmptyString.
Proof.
  revert acc. induction s as [|a s IH]; intros acc; simpl; auto.
  intros H. destruct (IH _ H) as [_ Hacc]. discriminate.
Qed.

Lemma trimStart_white_space (s : string) :
  all_white_space (trimStart s) = all_white_space s.
Proof.
  induction s as [|a s IH]; simpl; auto.
  destruct (is_white_space a) eqn:Ha; simpl; auto. now rewrite Ha.
Qed.

(** [trim] yields the empty string exactly on white space. *)
Lemma trim_empty (s : string) :
  trim s = EmptyString <-> all_white_space s = true.
Proof.
  unfold trim, trimEnd, reverse. split.
  - intros H. apply reverse_onto_empty in H as [H _].
    apply trimStart_empty in H.
    rewrite all_white_space_reverse_onto, andb_true_r in H.
    now rewrite trimStart_white_space in H.
  - intros H. apply trimStart_empty in H. rewrite H. reflexivity.
Qed.

Lemma truthy_trim (text : string) :
  truthy (Some (trim text)) = negb (all_white_space text).
Proof.
  unfold truthy.
  destruct (all_white_space text) eqn:H.
  - apply trim_empty in H. now rewrite H.
  - destruct (trim text) eqn:E; [|reflexivity].
    apply trim_empty in E. congruence.
Qed.

(** X6.  With a session and a text of ASCII characters,
    [sendTextMessage] sends nothing for a text that is empty or white
    space only and leaves the world as it is; any other text is sent
    as one request whose body is the text as given, not trimmed. *)
Theorem text_is_sent_unless_blank (w : World) (text : string) :
  truthy (sessionId (this w)) = true ->
  ascii_only text = true ->
  exists w',
    step (CallSendTextMessage text) w = Some w' /\
    if all_white_space text
    then w' = w
    else requests (since w w') =
           [(session_url (sessionId (this w)) "text", JsonText text)] /\
         pending w' = pending w ++ [PFetch KSendTextMessage].
Proof.
  intros Hsid _.
  destruct w as [c box live opus why pend tsk tim t]. cbn in Hsid.
  pose proof (truthy_trim text) as Htrim. unfold truthy in Htrim.
  unfold step, run_callback. js_unfold. simpl.
  rewrite Hsid, Htrim.
  destruct (all_white_space text); cbn.
  - eexists; split; reflexivity.
  - eexists. split; [reflexivity|]. cbn. split; [|reflexivity].
    observe. reflexivity.
Qed.

Lemma text_is_sent_unless_blank_witness :
  (exists w',
     step (CallSendTextMessage "  	 ") live = Some w' /\ w' = live) /\
  (exists w',
     step (CallSendTextMessage " hi ") live = Some w' /\
     requests (since live w') = [(session_url (Some "s1") "text", JsonText " hi ")] /\
     pending w' = [PFetch KSendTextMessage]).
Proof.
  split.
  - apply (text_is_sent_unless_blank live "  	 "); reflexivity.
  - apply (text_is_sent_unless_blank live " hi "); reflexivity.
Defined.

(** X7.  When a text submission fails, by a rejected request or by an
    answer that is not JSON, the failure is shown in the conversation
    box and logged; nothing is played, no exception leaves the handler
    and no field of the client changes. *)
Theorem text_failure_is_shown (w : World) (i : nat) (o : FetchOutcome) (e : string) :
  nth_error (pending w) i = Some (PFetch KSendTextMessage) ->
  failure_of o = Some e ->
  exists w',
    step (SettleFetch i o) w = Some w' /\
    conversationBox w' = appended (error_element e) (conversationBox w) /\
    since w w' =
      [ConsoleError "Failed to send text message:";
       ConsoleError ("Live Voice Error: " ++ e)%string] /\
    this w' = this w /\
    pending w' = remove_nth i (pending w).
Proof.
  intros Hi Ho.
  destruct w as [c box live opus why pend tsk tim t]. cbn in Hi.
  unfold step. cbn. rewrite Hi.
  destruct o as [m|[m|d]]; cbn in Ho; try discriminate; injection Ho as <-;
    evaluate;
    (eexists; split; [reflexivity|]); cbn;
    (repeat split; try (destruct box; reflexivity));
    observe; reflexivity.
Qed.

(** X8.  A failed audio submission is not shown: the rejection, or the
    answer that is not JSON, leaves the handler as an exception nobody
    catches, and the conversation box and the client stay as they
    were. *)
Theorem audio_failure_is_not_shown (w : World) (i : nat) (o : FetchOutcome) (e : string) :
  nth_error (pending w) i = Some (PFetch KSendAudio) ->
  failure_of o = Some e ->
  exists w',
    step (SettleFetch i o) w = Some w' /\
    conversationBox w' = conversationBox w /\
    since w w' = [Uncaught e] /\
    this w' = this w /\
    pending w' = remove_nth i (pending w).
Proof.
  intros Hi Ho.
  destruct w as [c box live opus why pend tsk tim t]. cbn in Hi.
  unfold step. cbn. rewrite Hi.
  destruct o as [m|[m|d]]; cbn in Ho; try discriminate; injection Ho as <-;
    evaluate;
    (eexists; split; [reflexivity|]); cbn;
    repeat split; observe; reflexivity.
Qed.

Lemma text_failure_is_shown_witness :
  exists w',
    step (SettleFetch 0 (Rejected "Failed to fetch")) asked = Some w' /\
    conversationBox w' = Some [error_element "Failed to fetch"] /\
    since asked w' =
      [ConsoleError "Failed to send text message:";
       ConsoleError "Live Voice Error: Failed to fetch"] /\
    this w' = this asked /\
    pending w' = [].
Proof.
  apply (text_failure_is_shown asked 0 (Rejected "Failed to fetch") "Failed to fetch");
    reflexivity.
Defined.

Lemma audio_failure_is_not_shown_witness :
  exists w',
    step (SettleFetch 0 (Responded (NotJson "Unexpected end of JSON input"))) spoken
      = Some w' /\
    conversationBox w' = Some [] /\
    since spoken w' = [Uncaught "Unexpected end of JSON input"] /\
    this w' = this spoken /\
    pending w' = [].
Proof.
  apply (audio_failure_is_not_shown spoken 0
           (Responded (NotJson "Unexpected end of JSON input"))
           "Unexpected end of JSON input");
    reflexivity.
Defined.

(** ** Push events, whatever they carry *)

Ltac split_ifs :=
  repeat match goal with
         | |- context [if ?b then _ else _] => destruct b eqn:?
         | H : context [if ?b then _ else _] |- _ => destruct b eqn:?
         end.

(** X9.  No push event changes the client, whatever its data, also when
    the data is not JSON or lacks what the handler reads: the fields of
    the client, the pending promises, the queued events, the timers
    and the tracks are as before, and the handler sends no request,
    opens no stream and registers no timer. *)
Theorem push_events_change_no_field
  (w w' : World) (event_data : option ServerData) :
  step (SseMessage event_data) w = Some w' ->
  this w' = this w /\
  pending w' = pending w /\
  tasks w' = tasks w /\
  timers w' = timers w /\
  tracks w' = tracks w /\
  requests (since w w') = [] /\
  streams_opened (since w w') = [] /\
  retry_delays (since w w') = [].
Proof.
  intros Hstep.
  destruct w as [c box live opus why pend tsk tim t].
  unfold step in Hstep. cbn in Hstep.
  destruct (stream_is OPEN c); [|discriminate].
  injection Hstep as <-.
  destruct event_data as [[[ty|] [[r text sound]|] [detail|]]|];
    unfold run_callback; js_unfold; cbn; split_ifs; cbn;
    repeat split; observe; try reflexivity;
    unfold since; cbn; now rewrite skipn_all.
Qed.

Lemma push_events_change_no_field_witness :
  exists w',
    step (SseMessage None) live = Some w' /\
    this w' = this live /\
    pending w' = [] /\ tasks w' = [] /\ timers w' = [] /\ tracks w' = [true] /\
    requests (since live w') = [] /\
    streams_opened (since live w') = [] /\
    retry_delays (since live w') = [].
Proof.
  eexists. split; [reflexivity|].
  apply (push_events_change_no_field live _ None). reflexivity.
Defined.

(** X10.  A Message of the user is displayed as a user message and is
    not played, even when it carries audio; a Message of any role
    other than assistant and user is ignored altogether.  An error
    detail on a Message event is not shown. *)
Theorem other_messages (w : World) (m : Message) (detail : option string) :
  stream_is OPEN (this w) = true ->
  role m <> "assistant" ->
  exists w',
    step (SseMessage (Some (message_event m detail))) w = Some w' /\
    since w w' = [] /\
    conversationBox w' =
      (if role m =? "user"
       then appended (mkElement "user-message" (content m)) (conversationBox w)
       else conversationBox w) /\
    this w' = this w.
Proof.
  intros Hopen Hrole.
  destruct w as [c box live opus why pend tsk tim t]. cbn in Hopen.
  destruct m as [r text sound]. cbn in Hrole.
  apply String.eqb_neq in Hrole.
  unfold step. cbn. rewrite Hopen.
  unfold run_callback. js_unfold. cbn. rewrite Hrole.
  destruct (r =? "user"); cbn;
    (eexists; split; [reflexivity|]); cbn;
    (repeat split; try (destruct box; reflexivity));
    unfold since; cbn; now rewrite skipn_all.
Qed.

Lemma other_messages_witness :
  (exists w',
     step (SseMessage (Some (message_event (mkMessage "user" "hello" (Some "QUJD"))
                                           (Some "late")))) live = Some w' /\
     since live w' = [] /\
     conversationBox w' = Some [mkElement "user-message" "hello"] /\
     this w' = this live) /\
  (exists w',
     step (SseMessage (Some (message_event (mkMessage "system" "hello" None) None)))
          live = Some w' /\
     since live w' = [] /\
     conversationBox w' = Some [] /\
     this w' = this live).
Proof.
  split.
  - apply (other_messages live (mkMessage "user" "hello" (Some "QUJD")) (Some "late"));
      [reflexivity|discriminate].
  - apply (other_messages live (mkMessage "system" "hello" None) None);
      [reflexivity|discriminate].
Defined.

(** X11.  A push event that is neither a Message nor a heartbeat and
    carries an error detail shows that detail in the conversation box
    and logs it; without a detail such an event does nothing at all. *)
Theorem error_event_is_shown (w : World) (d : ServerData) :
  stream_is OPEN (this w) = true ->
  type d <> Some "message" ->
  type d <> Some "heartbeat" ->
  exists w',
    step (SseMessage (Some d)) w = Some w' /\
    if truthy (error d)
    then conversationBox w' =
           appended (error_element (show (error d))) (conversationBox w) /\
         since w w' = [ConsoleError ("Live Voice Error: " ++ show (error d))%string] /\
         this w' = this w
    else w' = w.
Proof.
  intros Hopen Hm Hh.
  destruct w as [c box live opus why pend tsk tim t]. cbn in Hopen.
  destruct d as [ty dat detail]. cbn in Hm, Hh.
  assert (Em : truthy ty && (show ty =? "message") = false).
  { destruct ty as [ty|]; [|reflexivity]. cbn.
    apply andb_false_intro2. apply String.eqb_neq. congruence. }
  assert (Eh : truthy ty && (show ty =? "heartbeat") = false).
  { destruct ty as [ty|]; [|reflexivity]. cbn.
    apply andb_false_intro2. apply String.eqb_neq. congruence. }
  unfold step. cbn. rewrite Hopen.
  unfold run_callback, onmessage, handleServerMessage. cbn [type data error].
  rewrite Em, Eh.
  destruct (truthy detail) eqn:Hd.
  - js_unfold. cbn. eexists. split; [reflexivity|]. cbn.
    repeat split; try (destruct box; reflexivity). observe. reflexivity.
  - eexists. split; reflexivity.
Qed.

Lemma error_event_is_shown_witness :
  (exists w',
     step (SseMessage (Some (mkServerData (Some "error") None (Some "boom")))) live
       = Some w' /\
     conversationBox w' = Some [error_element "boom"] /\
     since live w' = [ConsoleError "Live Voice Error: boom"] /\
     this w' = this live) /\
  (exists w',
     step (SseMessage (Some (mkServerData None None None))) live = Some w' /\
     w' = live).
Proof.
  split.
  - apply (error_event_is_shown live (mkServerData (Some "error") None (Some "boom")));
      [reflexivity|discriminate|discriminate].
  - apply (error_event_is_shown live (mkServerData None None None));
      [reflexivity|discriminate|discriminate].
Defined.

(** ** Shutting down *)

Lemma stop_track_stops (id : nat) (t : list bool) :
  nth id (stop_track id t) false = false.
Proof.
  revert id. induction t as [|live t IH]; intros [|id]; simpl; auto.
Qed.

Lemma stop_track_keeps_stopped (id j : nat) (t : list bool) :
  nth j t false = false -> nth j (stop_track id t) false = false.
Proof.
  revert id j. induction t as [|live t IH]; intros [|id] [|j]; simpl; auto.
Qed.

Lemma stop_track_length (id : nat) (t : list bool) :
  length (stop_track id t) = length t.
Proof.
  revert id. induction t as [|live t IH]; intros [|id]; simpl; auto.
Qed.

Lemma stop_tracks_keep_stopped (l : list nat) (j : nat) (t : list bool) :
  nth j t false = false ->
  nth j (fold_left (fun a id => stop_track id a) l t) false = false.
Proof.
  revert t. induction l as [|id l IH]; intros t H; simpl; auto.
  apply IH, stop_track_keeps_stopped, H.
Qed.

Lemma stop_tracks_stop (l : list nat) (t : list bool) :
  Forall (fun id => nth id (fold_left (fun a id => stop_track id a) l t) false = false) l.
Proof.
  revert t. induction l as [|id l IH]; intros t; simpl; constructor.
  - apply stop_tracks_keep_stopped, stop_track_stops.
  - apply IH.
Qed.

Lemma stop_tracks_length (l : list nat) (t : list bool) :
  length (fold_left (fun a id => stop_track id a) l t) = length t.
Proof.
  revert t. induction l as [|id l IH]; intros t; simpl; auto.
  now rewrite IH, stop_track_length.
Qed.

Lemma requests_app (t1 t2 : list Effect) :
  requests (t1 ++ t2) = requests t1 ++ requests t2.
Proof. induction t1 as [|[] t1 IH]; simpl; auto. now f_equal. Qed.

Lemma requests_stops (l : list nat) : requests (map TrackStop l) = [].
Proof. induction l; simpl; auto. Qed.

(** X12.  An [end()] whose request is answered, with whatever status or
    body, shuts the client down: the session id is cleared and the
    client is inactive; the event stream, if the client had one, is
    closed, once, and forgotten; the recorder, if it was recording, is
    stopped, once, and is not recording afterwards; every track of the
    recorder's stream is stopped, once and in the order of the stream,
    and is ended afterwards; and the one request sent is the
    termination request of the session. *)
Theorem answered_end_shuts_down (w : World) (json : ReplyBody) :
  truthy (sessionId (this w)) = true ->
  exists w',
    end_awaited (Responded json) w = Some w' /\
    sessionId (this w') = None /\
    isActive (this w') = false /\
    eventSource (this w') = None /\
    recorder_in recording (this w') = false /\
    (forall r, mediaRecorder (this w) = Some r ->
               Forall (fun id => track_ended id w' = true) (stream r)) /\
    length (tracks w') = length (tracks w) /\
    requests (since w w') = [(session_url (sessionId (this w)) "end", NoBody)] /\
    pending w' = pending w /\
    filter is_close (since w w') =
      match eventSource (this w) with
      | Some _ => [CloseEventSource]
      | None => []
      end /\
    filter is_recorder_stop (since w w') =
      (if recorder_in recording (this w) then [RecorderStop] else []) /\
    released (since w w') =
      match mediaRecorder (this w) with
      | Some r => stream r
      | None => []
      end.
Proof.
  intros Hsid.
  destruct w as [[sid es act rec chunks] box live opus why pend tsk tim t].
  cbn in Hsid. destruct (truthy_inv _ Hsid) as [a [s ->]].
  unfold track_ended.
  destruct rec as [[[] strm g]|]; destruct es as [e|]; evaluate;
    (eexists; split; [reflexivity|]); cbn;
    do 4 (split; [reflexivity|]);
    (split;
     [intros r Hr;
      first [discriminate
            | injection Hr as <-; cbn;
              eapply Forall_impl; [|apply stop_tracks_stop];
              cbn; intros id Hid; now rewrite Hid]|]);
    (split; [first [apply stop_tracks_length | reflexivity]|]);
    (split; [observe; rewrite ?requests_app, ?requests_stops; reflexivity|]);
    (split; [reflexivity|]);
    (split; [observe; reflexivity|]);
    (split; observe; reflexivity).
Qed.

Lemma answered_end_shuts_down_witness :
  exists w',
    end_awaited (Responded acknowledged) live = Some w' /\
    sessionId (this w') = None /\
    isActive (this w') = false /\
    eventSource (this w') = None /\
    recorder_in recording (this w') = false /\
    (forall r, mediaRecorder (this live) = Some r ->
               Forall (fun id => track_ended id w' = true) (stream r)) /\
    length (tracks w') = 1 /\
    requests (since live w') = [(session_url (Some "s1") "end", NoBody)] /\
    pending w' = [] /\
    filter is_close (since live w') = [CloseEventSource] /\
    filter is_recorder_stop (since live w') = [] /\
    released (since live w') = [0].
Proof.
  apply (answered_end_shuts_down live acknowledged). reflexivity.
Defined.

(** ** What each kind of effect can come from *)

Section Without.

Variable p : Effect -> bool.
Hypothesis p_uncaught : forall e, p (Uncaught e) = false.

Lemma without_ret {A : Type} (a : A) : without p (ret a).
Proof. intros w. reflexivity. Qed.

Lemma without_throw {A : Type} (e : string) : without p (@throw A e).
Proof. intros w. reflexivity. Qed.

Lemma without_get : without p get.
Proof. intros w. reflexivity. Qed.

Lemma without_bind {A B : Type} (m : M A) (k : A -> M B) :
  without p m -> (forall a, without p (k a)) -> without p (bind m k).
Proof.
  intros Hm Hk w. unfold bind. specialize (Hm w).
  destruct (m w) as [[a|e] w1]; simpl in *; [|exact Hm].
  rewrite <- Hm. apply Hk.
Qed.

Lemma without_try_catch {A : Type} (body : M A) (handler : string -> M A) :
  without p body -> (forall e, without p (handler e)) ->
  without p (try_catch body handler).
Proof.
  intros Hb Hh w. unfold try_catch. specialize (Hb w).
  destruct (body w) as [[a|e] w1]; simpl in *; [exact Hb|].
  rewrite <- Hb. apply Hh.
Qed.

Lemma without_modify (f : World -> World) :
  (forall w, trace (f w) = trace w) -> without p (modify f).
Proof. intros H w. simpl. now rewrite H. Qed.

Lemma without_emit (e : Effect) : p e = false -> without p (emit e).
Proof.
  intros H w. simpl. rewrite filter_app. simpl. rewrite H. apply app_nil_r.
Qed.

Lemma without_forEach {X : Type} (f : X -> M unit) (l : list X) :
  (forall x, without p (f x)) -> without p (forEach f l).
Proof.
  intros H. induction l as [|x l IH]; simpl.
  - apply without_ret.
  - apply without_bind; auto.
Qed.

Lemma without_run_callback {A : Type} (m : M A) :
  without p m -> change_without p (run_callback m).
Proof.
  intros Hm w. unfold run_callback. specialize (Hm w).
  destruct (m w) as [[a|e] w1]; simpl in *; [exact Hm|].
  rewrite filter_app, Hm. simpl. rewrite p_uncaught. apply app_nil_r.
Qed.

Lemma without_fire (n : nat) :
  without p setupEventStream -> change_without p (fire n).
Proof.
  intros H. induction n as [|n IH]; intros w; simpl; auto.
  rewrite IH. now apply without_run_callback.
Qed.

End Without.

Ltac without_step :=
  first
    [ apply without_ret
    | apply without_throw
    | apply without_get
    | apply without_emit; reflexivity
    | apply without_modify; intros []; reflexivity
    | apply without_forEach; intros ?
    | apply without_bind; [|intros ?]
    | apply without_try_catch; [|intros ?]
    | match goal with
      | |- without _ (if ?b then _ else _) => destruct b
      | |- without _ (match ?x with _ => _ end) => destruct x
      end ].

Ltac without_all :=
  unfold initialize, initialize_resume, initialize_finish,
    setupAudioCapture, setupAudioCapture_resume,
    sendTextMessage, sendTextMessage_resume, sendAudioToServer,
    onloadend, onloadend_resume, ondataavailable, onstop,
    startRecording, stopRecording, MediaRecorder_start, MediaRecorder_stop,
    setupEventStream, reconnect, onmessage, onerror, handleServerMessage,
    end_, end_resume;
  unfold sendTextMessage_catch, initialize_catch, end_catch, present,
    response_of, json_of, showError, displayResponse, displayUserMessage,
    playAudio, track_stop;
  unfold appendChild, await_fetch, queue_tasks, assign, when;
  repeat without_step.

(** The callbacks run by an action that is no call of a method. *)
Ltac by_callback Hstep p_uncaught :=
  solve [ injection Hstep as <-;
          unfold resume, deliver;
          rewrite (without_run_callback _ p_uncaught); [reflexivity|];
          without_all ].

Lemma released_of_filter (t : list Effect) :
  released t = released (filter is_track_stop t).
Proof.
  induction t as [|[] t IH]; simpl; auto. now f_equal.
Qed.

Lemma no_uncaught_track_stop (e : string) : is_track_stop (Uncaught e) = false.
Proof. reflexivity. Qed.

Lemma no_uncaught_close (e : string) : is_close (Uncaught e) = false.
Proof. reflexivity. Qed.

Lemma no_uncaught_request (e : string) : is_request (Uncaught e) = false.
Proof. reflexivity. Qed.

Lemma no_uncaught_get_user_media (e : string) : is_get_user_media (Uncaught e) = false.
Proof. reflexivity. Qed.

Lemma track_stops_kept (a : Action) (w w' : World) :
  step a w = Some w' ->
  (forall i json, a = SettleFetch i (Responded json) ->
                  nth_error (pending w) i <> Some (PFetch KEnd)) ->
  filter is_track_stop (trace w') = filter is_track_stop (trace w).
Proof.
  intros Hstep Ha.
  destruct a; simpl in Hstep.
  - by_callback Hstep no_uncaught_track_stop.
  - by_callback Hstep no_uncaught_track_stop.
  - by_callback Hstep no_uncaught_track_stop.
  - by_callback Hstep no_uncaught_track_stop.
  - by_callback Hstep no_uncaught_track_stop.
  - destruct (nth_error (pending w) i) as [[k|]|] eqn:Hi; try discriminate.
    destruct k; try (by_callback Hstep no_uncaught_track_stop).
    destruct o as [e|json].
    + injection Hstep as <-.
      destruct w as [c box live opus why pend tsk tim t]. crunch.
      rewrite filter_app. cbn. apply app_nil_r.
    + exfalso. now apply (Ha i json).
  - destruct (nth_error (pending w) i) as [[k|]|]; try discriminate.
    by_callback Hstep no_uncaught_track_stop.
  - destruct (tasks w) as [|[] rest]; try discriminate;
      by_callback Hstep no_uncaught_track_stop.
  - destruct (recorder_in recording (this w)); try discriminate.
    injection Hstep as <-. reflexivity.
  - destruct (stream_is CONNECTING (this w)); try discriminate.
    injection Hstep as <-. reflexivity.
  - destruct (stream_is OPEN (this w)); try discriminate.
    by_callback Hstep no_uncaught_track_stop.
  - match type of Hstep with (if ?b then _ else _) = _ => destruct b end;
      try discriminate.
    by_callback Hstep no_uncaught_track_stop.
  - injection Hstep as <-. unfold elapse.
    rewrite (without_fire _ no_uncaught_track_stop); [reflexivity|].
    without_all.
Qed.

(** X13.  Tracks are stopped by one thing only: the answer to the
    termination request of [end()].  No call, no other settled
    promise, no push or error event and no timer stops a track; in
    particular a failed termination request stops none. *)
Theorem tracks_stop_only_on_answered_end (a : Action) (w w' : World) :
  step a w = Some w' ->
  released (trace w') <> released (trace w) ->
  exists i json,
    a = SettleFetch i (Responded json) /\
    nth_error (pending w) i = Some (PFetch KEnd).
Proof.
  intros Hstep Hne.
  assert (Hf : filter is_track_stop (trace w') <> filter is_track_stop (trace w)).
  { intros E. apply Hne.
    now rewrite (released_of_filter (trace w')), E, <- released_of_filter. }
  destruct a;
    try (exfalso; apply Hf, (track_stops_kept _ _ _ Hstep); intros; discriminate).
  destruct o as [e|json];
    [exfalso; apply Hf, (track_stops_kept _ _ _ Hstep); intros; discriminate|].
  destruct (nth_error (pending w) i) as [[[]|]|] eqn:Hi;
    try (exfalso; apply Hf, (track_stops_kept _ _ _ Hstep);
         intros i0 j0 E0; injection E0 as <- <-; rewrite Hi; discriminate).
  eauto.
Qed.

Lemma tracks_stop_only_on_answered_end_witness :
  step (SettleFetch 0 (Responded acknowledged)) ending = Some ended /\
  released (trace ended) <> released (trace ending) /\
  exists i json,
    SettleFetch 0 (Responded acknowledged) = SettleFetch i (Responded json) /\
    nth_error (pending ending) i = Some (PFetch KEnd).
Proof.
  assert (Hne : released (trace ended) <> released (trace ending)) by discriminate.
  split; [reflexivity|]. split; [exact Hne|].
  exact (tracks_stop_only_on_answered_end
           (SettleFetch 0 (Responded acknowledged)) ending ended eq_refl Hne).
Defined.

Lemma closes_kept (a : Action) (w w' : World) :
  step a w = Some w' ->
  a <> CallEnd ->
  filter is_close (trace w') = filter is_close (trace w).
Proof.
  intros Hstep Ha.
  destruct a; simpl in Hstep; try congruence.
  - by_callback Hstep no_uncaught_close.
  - by_callback Hstep no_uncaught_close.
  - by_callback Hstep no_uncaught_close.
  - by_callback Hstep no_uncaught_close.
  - destruct (nth_error (pending w) i) as [[k|]|]; try discriminate.
    destruct k; by_callback Hstep no_uncaught_close.
  - destruct (nth_error (pending w) i) as [[k|]|]; try discriminate.
    by_callback Hstep no_uncaught_close.
  - destruct (tasks w) as [|[] rest]; try discriminate;
      by_callback Hstep no_uncaught_close.
  - destruct (recorder_in recording (this w)); try discriminate.
    injection Hstep as <-. reflexivity.
  - destruct (stream_is CONNECTING (this w)); try discriminate.
    injection Hstep as <-. reflexivity.
  - destruct (stream_is OPEN (this w)); try discriminate.
    by_callback Hstep no_uncaught_close.
  - match type of Hstep with (if ?b then _ else _) = _ => destruct b end;
      try discriminate.
    by_callback Hstep no_uncaught_close.
  - injection Hstep as <-. unfold elapse.
    rewrite (without_fire _ no_uncaught_close); [reflexivity|].
    without_all.
Qed.

(** X14.  The client closes an event stream in one place only, the
    call of [end()]: no error event, push event, timer or settled
    promise closes a stream. *)
Theorem stream_closes_only_in_end (a : Action) (w w' : World) :
  step a w = Some w' ->
  filter is_close (trace w') <> filter is_close (trace w) ->
  a = CallEnd.
Proof.
  intros Hstep Hne.
  destruct a; try reflexivity;
    exfalso; apply Hne, (closes_kept _ _ _ Hstep); discriminate.
Qed.

Lemma stream_closes_only_in_end_witness :
  step CallEnd live = Some ending /\
  filter is_close (trace ending) <> filter is_close (trace live) /\
  CallEnd = CallEnd.
Proof.
  assert (Hne : filter is_close (trace ending) <> filter is_close (trace live))
    by discriminate.
  split; [reflexivity|]. split; [exact Hne|].
  exact (stream_closes_only_in_end CallEnd live ending eq_refl Hne).
Defined.

Lemma requests_of_filter (t : list Effect) :
  requests t = requests (filter is_request t).
Proof.
  induction t as [|[] t IH]; simpl; auto. now f_equal.
Qed.

Lemma requests_kept (a : Action) (w w' : World) :
  step a w = Some w' ->
  a <> CallInitialize ->
  (forall text, a <> CallSendTextMessage text) ->
  a <> CallEnd ->
  (a = RunTask -> forall b rest, tasks w <> TLoadEnd b :: rest) ->
  filter is_request (trace w') = filter is_request (trace w).
Proof.
  intros Hstep Hi Ht He Hr.
  destruct a as [|txt| | | |i o|i o| |b| |d|rs|ms]; simpl in Hstep; try congruence.
  - by_callback Hstep no_uncaught_request.
  - by_callback Hstep no_uncaught_request.
  - destruct (nth_error (pending w) i) as [[k|]|]; try discriminate.
    destruct k; by_callback Hstep no_uncaught_request.
  - destruct (nth_error (pending w) i) as [[k|]|]; try discriminate.
    by_callback Hstep no_uncaught_request.
  - destruct (tasks w) as [|[] rest] eqn:Hq; try discriminate;
      try (by_callback Hstep no_uncaught_request).
    exfalso. now apply (Hr eq_refl b rest).
  - destruct (recorder_in recording (this w)); try discriminate.
    injection Hstep as <-. reflexivity.
  - destruct (stream_is CONNECTING (this w)); try discriminate.
    injection Hstep as <-. reflexivity.
  - destruct (stream_is OPEN (this w)); try discriminate.
    by_callback Hstep no_uncaught_request.
  - match type of Hstep with (if ?b then _ else _) = _ => destruct b end;
      try discriminate.
    by_callback Hstep no_uncaught_request.
  - injection Hstep as <-. unfold elapse.
    rewrite (without_fire _ no_uncaught_request); [reflexivity|].
    without_all.
Qed.

(** X15.  A request leaves the client only from a call of
    [initialize()], [sendTextMessage()] or [end()], or from the
    [loadend] event of the reader that encodes an utterance.  No
    settled promise, push event, error event or timer sends one: a
    request that failed is never sent again by the client itself. *)
Theorem requests_come_from_calls_and_loadend (a : Action) (w w' : World) :
  step a w = Some w' ->
  requests (trace w') <> requests (trace w) ->
  a = CallInitialize \/
  (exists text, a = CallSendTextMessage text) \/
  a = CallEnd \/
  (a = RunTask /\ exists b rest, tasks w = TLoadEnd b :: rest).
Proof.
  intros Hstep Hne.
  assert (Hf : filter is_request (trace w') <> filter is_request (trace w)).
  { intros E. apply Hne.
    now rewrite (requests_of_filter (trace w')), E, <- requests_of_filter. }
  destruct a; eauto;
    try (exfalso; apply Hf, (requests_kept _ _ _ Hstep);
         intros; congruence).
  destruct (tasks w) as [|[chunk| |b] rest] eqn:Hq;
    try (do 3 right; split; [reflexivity|]; now exists b, rest);
    exfalso; apply Hf, (requests_kept _ _ _ Hstep);
    intros; rewrite ?Hq; congruence.
Qed.

Lemma requests_come_from_calls_and_loadend_witness :
  exists w',
    step CallEnd live = Some w' /\
    requests (trace w') <> requests (trace live) /\
    (CallEnd = CallInitialize \/
     (exists text, CallEnd = CallSendTextMessage text) \/
     CallEnd = CallEnd \/
     (CallEnd = RunTask /\ exists b rest, tasks live = TLoadEnd b :: rest)).
Proof.
  exists ending.
  assert (Hne : requests (trace ending) <> requests (trace live)) by discriminate.
  split; [reflexivity|]. split; [exact Hne|].
  exact (requests_come_from_calls_and_loadend CallEnd live ending eq_refl Hne).
Defined.

Lemma get_user_media_kept (a : Action) (w w' : World) :
  step a w = Some w' ->
  (forall i d, a = SettleFetch i (Responded (Json d)) ->
               nth_error (pending w) i <> Some (PFetch KInitialize)) ->
  filter is_get_user_media (trace w') = filter is_get_user_media (trace w).
Proof.
  intros Hstep Ha.
  destruct a; simpl in Hstep.
  - by_callback Hstep no_uncaught_get_user_media.
  - by_callback Hstep no_uncaught_get_user_media.
  - by_callback Hstep no_uncaught_get_user_media.
  - by_callback Hstep no_uncaught_get_user_media.
  - by_callback Hstep no_uncaught_get_user_media.
  - destruct (nth_error (pending w) i) as [[k|]|] eqn:Hi; try discriminate.
    destruct k; try (by_callback Hstep no_uncaught_get_user_media).
    destruct o as [e|[e|d]].
    + injection Hstep as <-.
      destruct w as [c box live opus why pend tsk tim t]. crunch.
      rewrite !filter_app. cbn. now rewrite !app_nil_r.
    + injection Hstep as <-.
      destruct w as [c box live opus why pend tsk tim t]. crunch.
      rewrite !filter_app. cbn. now rewrite !app_nil_r.
    + exfalso. now apply (Ha i d).
  - destruct (nth_error (pending w) i) as [[k|]|]; try discriminate.
    by_callback Hstep no_uncaught_get_user_media.
  - destruct (tasks w) as [|[] rest]; try discriminate;
      by_callback Hstep no_uncaught_get_user_media.
  - destruct (recorder_in recording (this w)); try discriminate.
    injection Hstep as <-. reflexivity.
  - destruct (stream_is CONNECTING (this w)); try discriminate.
    injection Hstep as <-. reflexivity.
  - destruct (stream_is OPEN (this w)); try discriminate.
    by_callback Hstep no_uncaught_get_user_media.
  - match type of Hstep with (if ?b then _ else _) = _ => destruct b end;
      try discriminate.
    by_callback Hstep no_uncaught_get_user_media.
  - injection Hstep as <-. unfold elapse.
    rewrite (without_fire _ no_uncaught_get_user_media); [reflexivity|].
    without_all.
Qed.

(** X16.  The microphone is asked for at one point only: when the
    create request of [initialize()] has been answered with JSON.  A
    failed or unparsable create request never leads to the permission
    prompt, and nothing else in the client asks for the microphone. *)
Theorem microphone_asked_only_after_create (a : Action) (w w' : World) :
  step a w = Some w' ->
  filter is_get_user_media (trace w') <> filter is_get_user_media (trace w) ->
  exists i d,
    a = SettleFetch i (Responded (Json d)) /\
    nth_error (pending w) i = Some (PFetch KInitialize).
Proof.
  intros Hstep Hf.
  destruct a;
    try (exfalso; apply Hf, (get_user_media_kept _ _ _ Hstep); intros; discriminate).
  destruct o as [e|[e|d]];
    try (exfalso; apply Hf, (get_user_media_kept _ _ _ Hstep); intros; discriminate).
  destruct (nth_error (pending w) i) as [[[]|]|] eqn:Hi;
    try (exfalso; apply Hf, (get_user_media_kept _ _ _ Hstep);
         intros i0 d0 E0; injection E0 as <- <-; rewrite Hi; discriminate).
  eauto.
Qed.

Lemma microphone_asked_only_after_create_witness :
  exists w',
    step (SettleFetch 0 (Responded (Json (mkResponse (Some "s1") None None)))) creating
      = Some w' /\
    filter is_get_user_media (trace w') <> filter is_get_user_media (trace creating) /\
    exists i d,
      SettleFetch 0 (Responded (Json (mkResponse (Some "s1") None None)))
        = SettleFetch i (Responded (Json d)) /\
      nth_error (pending creating) i = Some (PFetch KInitialize).
Proof.
  eexists. split; [reflexivity|].
  match goal with
  | |- ?A /\ _ => assert (Hne : A) by discriminate
  end.
  split; [exact Hne|].
  exact (microphone_asked_only_after_create
           (SettleFetch 0 (Responded (Json (mkResponse (Some "s1") None None))))
           creating _ eq_refl Hne).
Defined.

(** ** Timers and the end of the session *)

Lemma fire_without_session (n : nat) (w : World) :
  truthy (sessionId (this w)) = false -> fire n w = w.
Proof.
  intros H. induction n as [|n IH]; simpl; auto.
  unfold run_callback, setupEventStream, bind, get. rewrite H. simpl. exact IH.
Qed.

(** X17.  Once the client has no session id, a timer of [reconnect]
    that fires does nothing: no stream is opened, the trace and the
    client are as before, and the timer is gone. *)
Theorem timer_without_session_opens_nothing (w : World) (ms : N) :
  truthy (sessionId (this w)) = false ->
  exists w',
    step (Elapse ms) w = Some w' /\
    this w' = this w /\
    trace w' = trace w /\
    pending w' = pending w /\
    timers w' = map (fun r => (r - ms)%N) (filter (fun r => (ms <? r)%N) (timers w)).
Proof.
  intros H. eexists. split; [reflexivity|].
  unfold elapse. rewrite fire_without_session by exact H.
  repeat split.
Qed.

Lemma timer_without_session_opens_nothing_witness :
  timers lingering = [3000%N] /\
  exists w',
    step (Elapse 3000) lingering = Some w' /\
    this w' = this lingering /\
    trace w' = trace lingering /\
    pending w' = [] /\
    timers w' = [].
Proof.
  split; [reflexivity|].
  apply (timer_without_session_opens_nothing lingering 3000). reflexivity.
Defined.

Lemma streams_opened_stops (l : list nat) : streams_opened (map TrackStop l) = [].
Proof. induction l; simpl; auto. Qed.

(** X18.  [end()] does not cancel a reconnection that is scheduled.
    When the timer fires while [end()] awaits its request, the stream
    of the session is opened again, and the completed [end()], which
    closed the stream it knew, leaves the new one open on a client
    that has no session any more. *)
Theorem end_does_not_cancel_reconnection (w : World) (json : ReplyBody) :
  truthy (sessionId (this w)) = true ->
  timers w = [3000%N] ->
  exists w',
    end_during_wait json w = Some w' /\
    sessionId (this w') = None /\
    isActive (this w') = false /\
    eventSource (this w') =
      Some (mkEventSource (session_url (sessionId (this w)) "stream") CONNECTING) /\
    streams_opened (since w w') = [session_url (sessionId (this w)) "stream"] /\
    timers w' = [] /\
    pending w' = pending w.
Proof.
  intros Hsid Htim.
  destruct w as [[sid es act rec chunks] box live opus why pend tsk tim t].
  cbn in Hsid, Htim. subst tim.
  destruct (truthy_inv _ Hsid) as [a [s ->]].
  unfold end_during_wait.
  destruct rec as [[[] strm g]|]; destruct es as [e|];
    unfold elapse; evaluate;
    (eexists; split; [reflexivity|]); cbn;
    do 3 (split; [reflexivity|]);
    (split; [observe;
             rewrite ?streams_opened_app, ?streams_opened_stops; reflexivity|]);
    split; reflexivity.
Qed.

Lemma end_does_not_cancel_reconnection_witness :
  exists w',
    end_during_wait acknowledged waiting = Some w' /\
    sessionId (this w') = None /\
    isActive (this w') = false /\
    eventSource (this w') =
      Some (mkEventSource (session_url (Some "s1") "stream") CONNECTING) /\
    streams_opened (since waiting w') = [session_url (Some "s1") "stream"] /\
    timers w' = [] /\
    pending w' = [].
Proof.
  apply (end_does_not_cancel_reconnection waiting acknowledged); reflexivity.
Defined.

(** ** What holds in every world the client reaches *)

Lemma Forall_lt_app (l : list nat) (t : list bool) (extra : list bool) :
  Forall (fun id => id < length t) l ->
  Forall (fun id => id < length (t ++ extra)) l.
Proof.
  intros H. eapply Forall_impl; [|exact H].
  cbn. intros id Hid. rewrite length_app. lia.
Qed.

Lemma Forall_lt_seq (t : list bool) (n : nat) :
  Forall (fun id => id < length (t ++ repeat true n)) (seq (length t) n).
Proof.
  apply Forall_forall. intros id Hid. apply in_seq in Hid.
  rewrite length_app, repeat_length. lia.
Qed.

Lemma Forall_lt_stopped (l strm : list nat) (t : list bool) :
  Forall (fun id => id < length t) l ->
  Forall (fun id => id < length (fold_left (fun a id => stop_track id a) strm t)) l.
Proof. now rewrite stop_tracks_length. Qed.

Ltac sound_finish :=
  unfold recorder_sound in *; cbn in *;
  repeat match goal with
         | H : _ /\ _ |- _ => destruct H
         end;
  repeat split;
  auto using seq_NoDup, Forall_lt_app, Forall_lt_seq, Forall_lt_stopped;
  try discriminate; try congruence.

Lemma setupEventStream_sound (w : World) :
  recorder_sound w -> recorder_sound (run_callback setupEventStream w).
Proof.
  intros H.
  destruct w as [[[[|a s]|] es act [[st strm g]|] chunks] box live opus why pend tsk tim t];
    crunch; sound_finish.
Qed.

Lemma fire_sound (n : nat) (w : World) :
  recorder_sound w -> recorder_sound (fire n w).
Proof.
  revert w. induction n as [|n IH]; intros w H; simpl; auto.
  apply IH, setupEventStream_sound, H.
Qed.

Lemma step_recorder_sound (a : Action) (w w' : World) :
  step a w = Some w' -> recorder_sound w -> recorder_sound w'.
Proof.
  intros Hstep H.
  destruct a as [|txt| | | |i o|i o| |b| |d|rs|ms].
  - destruct w as [c box live opus why pend tsk tim t]. crunch.
    injection Hstep as <-. exact H.
  - destruct w as [[[[|a s]|] es act rec chunks] box live opus why pend tsk tim t];
      crunch; split_ifs; injection Hstep as <-; exact H.
  - destruct w as [[sid es act [[[] strm g]|] chunks] box live opus why pend tsk tim t];
      crunch; split_ifs; cbn in *; injection Hstep as <-; sound_finish.
  - destruct w as [[sid es act [[[] strm g]|] chunks] box live opus why pend tsk tim t];
      crunch; injection Hstep as <-; sound_finish.
  - destruct w as [[[[|a s]|] [e|] act [[[] strm g]|] chunks] box live opus why pend tsk tim t];
      crunch; injection Hstep as <-; sound_finish.
  - destruct w as [[sid es act [[st strm g]|] chunks] box live opus why pend tsk tim t];
      unfold step in Hstep; cbn in Hstep;
      destruct (nth_error pend i) as [[[]|]|]; try discriminate;
      injection Hstep as <-;
      destruct o as [e|[e|[[[|a s]|] sound words]]];
      evaluate; split_ifs; sound_finish.
  - destruct w as [[sid es act [[st strm g]|] chunks] box live [] why pend tsk tim t];
      unfold step in Hstep; cbn in Hstep;
      destruct (nth_error pend i) as [[|]|]; try discriminate;
      injection Hstep as <-;
      destruct o as [e|n];
      evaluate; sound_finish.
  - destruct w as [[[[|a s]|] es act [[st strm g]|] chunks] box live opus why pend
                     [|[chunk| |blob] rest] tim t];
      crunch; try discriminate; split_ifs; injection Hstep as <-; sound_finish.
  - destruct w as [[sid es act [[[] strm g]|] chunks] box live opus why pend tsk tim t];
      crunch; try discriminate; injection Hstep as <-; sound_finish.
  - destruct w as [[sid [[u []]|] act [[st strm g]|] chunks] box live opus why pend tsk tim t];
      crunch; try discriminate; injection Hstep as <-; sound_finish.
  - destruct w as [[sid [[u []]|] act [[st strm g]|] chunks] box live opus why pend tsk tim t];
      crunch; try discriminate; injection Hstep as <-;
      destruct d as [[[ty|] [[r text sound]|] [detail|]]|];
      cbn; split_ifs; sound_finish.
  - destruct w as [[sid [[u []]|] act [[st strm g]|] chunks] box live opus why pend tsk tim t];
      destruct rs; crunch; try discriminate; injection Hstep as <-; sound_finish.
  - cbn in Hstep. injection Hstep as <-. unfold elapse. apply fire_sound.
    destruct w as [[sid es act [[st strm g]|] chunks] box live opus why pend tsk tim t];
      sound_finish.
Qed.

Lemma run_recorder_sound (actions : list Action) :
  forall w w', run actions w = Some w' -> recorder_sound w -> recorder_sound w'.
Proof.
  induction actions as [|a actions IH]; intros w w' Hrun H; simpl in Hrun.
  - now injection Hrun as <-.
  - destruct (step a w) as [w1|] eqn:Hstep; [|discriminate].
    apply (IH w1 w' Hrun), (step_recorder_sound a w w1 Hstep H).
Qed.

(** X19.  In every world the client reaches from a freshly loaded
    page, by any calls and events in any order: the tracks of the
    recorder's stream are pairwise distinct and are tracks of the
    world, the recorder is never paused, and an active client has a
    recorder. *)
Theorem reachable_recorder_is_sound (actions : list Action) (w : World) :
  run actions page = Some w ->
  (forall r, mediaRecorder (this w) = Some r ->
             NoDup (stream r) /\
             Forall (fun id => id < length (tracks w)) (stream r) /\
             state r <> paused) /\
  (isActive (this w) = true -> mediaRecorder (this w) <> None).
Proof.
  intros Hrun.
  assert (H : recorder_sound w).
  { apply (run_recorder_sound actions page w Hrun). reflexivity. }
  unfold recorder_sound in H.
  destruct (mediaRecorder (this w)) as [r|].
  - split; [|discriminate]. intros r' Hr. now injection Hr as <-.
  - split; [discriminate|]. congruence.
Qed.

Lemma reachable_recorder_is_sound_witness :
  run start_up page = Some live /\
  (NoDup [0] /\ Forall (fun id => id < 1) [0] /\ inactive <> paused) /\
  mediaRecorder (this live) <> None.
Proof.
  destruct (reachable_recorder_is_sound start_up live eq_refl) as [H1 H2].
  split; [reflexivity|]. split.
  - exact (H1 (mkRecorder inactive [0] []) eq_refl).
  - exact (H2 eq_refl).
Defined.

(** ** Audio and the end of the session *)

(** X20.  Audio whose stop event is delivered when the client has no
    session any more is dropped: the handler empties the buffer and
    nothing is read or sent. *)
Theorem audio_without_session_is_dropped (w : World) (rest : list Task) :
  truthy (sessionId (this w)) = false ->
  tasks w = TRecorderStop :: rest ->
  exists w',
    step RunTask w = Some w' /\
    audioChunks (this w') = [] /\
    trace w' = trace w /\
    tasks w' = rest /\
    pending w' = pending w.
Proof.
  intros Hsid Htsk.
  destruct w as [[sid es act rec chunks] box live opus why pend tsk tim t].
  cbn in Hsid, Htsk. subst tsk.
  destruct sid as [[|a s]|]; try discriminate;
    crunch; eexists; repeat split.
Qed.

Lemma audio_without_session_is_dropped_witness :
  audioChunks (this cut_short) = [[Byte.x01; Byte.x02]] /\
  exists w',
    step RunTask cut_short = Some w' /\
    audioChunks (this w') = [] /\
    trace w' = trace cut_short /\
    tasks w' = [] /\
    pending w' = [].
Proof.
  split; [reflexivity|].
  apply (audio_without_session_is_dropped cut_short []); reflexivity.
Defined.

(** X21.  The reader's [loadend] handler has no guard and reads the
    session id when it runs.  When [end()] is called while an
    utterance is recorded and its request is answered between the
    recorder's stop event and the reader's [loadend], the session id
    is null by then and the audio is sent to the address built from
    it. *)
Theorem audio_after_end_goes_to_null_session
  (w : World) (b : Blob) (reply : ReplyBody) :
  truthy (sessionId (this w)) = true ->
  recorder_in inactive (this w) = true ->
  stream_live w = true ->
  tasks w = [] ->
  exists w',
    end_before_loadend b reply w = Some w' /\
    sessionId (this w') = None /\
    requests (since w w') =
      [(session_url (sessionId (this w)) "end", NoBody);
       ("http://localhost:8003/api/live/session/null/audio", JsonAudio b)].
Proof.
  intros Hsid Hrec Hlive Htsk.
  destruct w as [[sid es act rec chunks] box live opus why pend tsk tim t].
  cbn in Hsid, Hrec, Htsk. subst tsk.
  destruct (truthy_inv _ Hsid) as [a [s ->]].
  destruct (recorder_in_inv _ _ Hrec) as [strm [g Hr]]. cbn in Hr. subst rec.
  unfold stream_live, live_track in Hlive. cbn in Hlive.
  unfold end_before_loadend.
  destruct b as [|x b]; destruct es as [e|]; crunch; rewrite Hlive; evaluate;
    (eexists; split; [reflexivity|]); cbn;
    (split; [reflexivity|]);
    observe; rewrite ?requests_app, ?requests_stops; cbn;
    rewrite ?app_nil_r; reflexivity.
Qed.

Lemma audio_after_end_goes_to_null_session_witness :
  exists w',
    end_before_loadend [Byte.x01; Byte.x02] acknowledged live = Some w' /\
    sessionId (this w') = None /\
    requests (since live w') =
      [(session_url (Some "s1") "end", NoBody);
       ("http://localhost:8003/api/live/session/null/audio",
        JsonAudio [Byte.x01; Byte.x02])].
Proof.
  apply (audio_after_end_goes_to_null_session live [Byte.x01; Byte.x02] acknowledged);
    reflexivity.
Defined.
